(** * The HDFS file source: path joiner, File entity, client factory and the
      promise-returning file operations of [HdfsFileSource].

    The TypeScript module is embedded shallowly.  JavaScript strings are
    [string]s (sequences of code units; the operations used here - equality,
    concatenation, search, slicing - do not depend on the size of a unit),
    a [Buffer] is the string of its bytes, an array is a [list].  A promise is
    its state; [resolve] and [reject] act only on a pending promise.  A stream,
    a line reader or a callback-taking client method is the sequence of events
    (callback invocations) it delivers, and each operation is the closure state
    of its executor together with one handler per event. *)

From Stdlib Require Import String Ascii List ZArith Bool Lia DecimalString.
Import ListNotations.

Open Scope list_scope.
Open Scope string_scope.

(** ** JavaScript values and built-ins used by the module *)

Module Js.

(** A [number]: the integers, and [NaN] (what [Number.parseInt] gives on
    text without digits).  Fractions and infinities are not represented. *)
Inductive number : Type :=
| NaN
| Num (z : Z).

(** [if (n)] on a number: [0] and [NaN] are falsy. *)
Definition number_truthy (n : number) : bool :=
  match n with
  | NaN => false
  | Num z => negb (z =? 0)%Z
  end.

(** [a >= b]; any comparison with [NaN] is false. *)
Definition geq (a b : number) : bool :=
  match a, b with
  | Num x, Num y => (y <=? x)%Z
  | _, _ => false
  end.

(** An [Error] object, by the two properties the module reads. *)
Record Error : Type := mkError { name : string; message : string }.

(** [Error.prototype.toString]. *)
Definition Error_toString (e : Error) : string :=
  if (name e =? EmptyString)%string then message e
  else if (message e =? EmptyString)%string then name e
  else name e ++ ": " ++ message e.

(** A value of type [any], as far as callbacks hand them over. *)
Inductive value : Type :=
| undefined
| null
| boolean (b : bool)
| numeric (n : number)
| text (s : string)
| object (e : Error).

Definition string_truthy (s : string) : bool :=
  negb (s =? EmptyString)%string.

Definition truthy (v : value) : bool :=
  match v with
  | undefined | null => false
  | boolean b => b
  | numeric n => number_truthy n
  | text s => string_truthy s
  | object _ => true
  end.

(** [s.startsWith(pat)] *)
Fixpoint startsWith (pat s : string) : bool :=
  match pat with
  | EmptyString => true
  | String a pat' =>
      match s with
      | EmptyString => false
      | String b s' => Ascii.eqb a b && startsWith pat' s'
      end
  end.

(** [s.indexOf(pat)]: the first position at which [pat] occurs, or [-1]. *)
Fixpoint indexOf (s pat : string) : Z :=
  if startsWith pat s then 0%Z
  else match s with
       | EmptyString => (-1)%Z
       | String _ s' =>
           let r := indexOf s' pat in
           if (r <? 0)%Z then (-1)%Z else (r + 1)%Z
       end.

(** [s.includes(pat)] *)
Definition includes (s pat : string) : bool :=
  negb (indexOf s pat =? -1)%Z.

Fixpoint take (n : nat) (s : string) : string :=
  match n, s with
  | S n', String c s' => String c (take n' s')
  | _, _ => EmptyString
  end.

Fixpoint drop (n : nat) (s : string) : string :=
  match n, s with
  | S n', String _ s' => drop n' s'
  | _, _ => s
  end.

(** [s.slice(0, e)]: a negative [e] counts from the end of [s]. *)
Definition slice0 (s : string) (e : Z) : string :=
  if (e <? 0)%Z
  then take (Z.to_nat (Z.of_nat (String.length s) + e)) s
  else take (Z.to_nat e) s.

(** [s.replace(pat, rep)] with a string pattern: the first occurrence only.
    ([rep] is used literally; the module only passes the empty string.) *)
Fixpoint replace (s pat rep : string) : string :=
  if startsWith pat s then rep ++ drop (String.length pat) s
  else match s with
       | EmptyString => EmptyString
       | String c s' => String c (replace s' pat rep)
       end.

(** [lines.join(sep)] on an array of strings. *)
Definition join (sep : string) (xs : list string) : string :=
  String.concat sep xs.

(** [Buffer.concat(chunks)] *)
Definition Buffer_concat (chunks : list string) : string :=
  String.concat EmptyString chunks.

(** [Buffer.from(s)] *)
Definition Buffer_from (s : string) : string := s.

(** The state of a promise and the two functions its executor receives. *)
Module Promise.

Inductive state (A E : Type) : Type :=
| Pending
| Fulfilled (a : A)
| Rejected (e : E).
Arguments Pending {A E}.
Arguments Fulfilled {A E} a.
Arguments Rejected {A E} e.

Definition resolve {A E} (a : A) (p : state A E) : state A E :=
  match p with
  | Pending => Fulfilled a
  | _ => p
  end.

Definition reject {A E} (e : E) (p : state A E) : state A E :=
  match p with
  | Pending => Rejected e
  | _ => p
  end.

Definition settled {A E} (p : state A E) : bool :=
  match p with
  | Pending => false
  | _ => true
  end.

End Promise.

End Js.

Import Js.
Import Js.Promise.

(** Deliver a sequence of events to a handler, first to last. *)
Definition deliver {Ev St : Type} (handler : St -> Ev -> St)
    (events : list Ev) (s : St) : St :=
  fold_left handler events s.


(** ** Data model *)

(** [IFile] and its implementing class [File]. *)
Record IFile : Type := File { path : string; isDirectory : bool }.

Record IHttpAuthentication : Type :=
  { auth_user : string; pass : string }.

(** The options an [https.Agent] is constructed from. *)
Record AgentOptions : Type :=
  { agent_host : option string;
    agent_port : option number;
    agent_path : string;
    rejectUnauthorized : bool }.

Record IRequestParams : Type :=
  { auth : option IHttpAuthentication;
    timeout : option number;
    agent : option AgentOptions }.

Record IHdfsOptions : Type :=
  { host : option string;
    port : option number;
    protocol : option string;
    user : option string;
    options_path : option string;
    requestParams : option IRequestParams }.

Definition set_host (h : string) (o : IHdfsOptions) : IHdfsOptions :=
  {| host := Some h; port := port o; protocol := protocol o; user := user o;
     options_path := options_path o; requestParams := requestParams o |}.

Definition set_port (n : number) (o : IHdfsOptions) : IHdfsOptions :=
  {| host := host o; port := Some n; protocol := protocol o; user := user o;
     options_path := options_path o; requestParams := requestParams o |}.

Definition set_requestParams (rp : IRequestParams) (o : IHdfsOptions)
    : IHdfsOptions :=
  {| host := host o; port := port o; protocol := protocol o; user := user o;
     options_path := options_path o; requestParams := Some rp |}.

Definition set_agent (a : AgentOptions) (rp : IRequestParams)
    : IRequestParams :=
  {| auth := auth rp; timeout := timeout rp; agent := Some a |}.

(** The empty object literal [{}] as request parameters. *)
Definition empty_requestParams : IRequestParams :=
  {| auth := None; timeout := None; agent := None |}.

Record IHdfsFileStatus : Type :=
  { type : string; pathSuffix : string }.

(** Events of a readable stream, as the handlers of [readFile] see them. *)
Inductive StreamEvent : Type :=
| stream_error (err : Error)
| stream_data (chunk : string)
| stream_finish.

(** Events of a [readline] interface. *)
Inductive LineEvent : Type :=
| reader_line (line : string)
| reader_error (err : Error)
| reader_close.

(** Events of a writable stream; [finish] carries the location. *)
Inductive WriteEvent : Type :=
| write_error (err : value)
| write_finish (location : string).

(** [IHdfsClient].  A method that takes a callback is the list of invocations
    of that callback (their arguments); a method that returns a stream is the
    list of events of that stream.  A write stream depends on what is piped
    into it. *)
Module Client.
Record IHdfsClient : Type :=
  { readdir : string -> list (option Error * list IHdfsFileStatus);
    createReadStream : string -> list StreamEvent;
    createWriteStream : string -> list StreamEvent -> list WriteEvent;
    mkdir : string -> list value;
    rmdir : string -> bool -> list value;
    exists_ : string -> list bool }.
End Client.

(** Closure state of the executor of [readFile]. *)
Record ReadFileState : Type :=
  { rf_data : list string;
    rf_error : option string;
    rf_finish_listener : bool;
    rf_promise : state string value }.

(** Closure state of the executor of [readFileLines], and whether
    [lineReader.close()] has been called. *)
Record ReadLinesState : Type :=
  { rl_lineCount : Z;
    rl_lineData : list string;
    rl_errorMsg : option string;
    rl_closed : bool;
    rl_promise : state string value }.

(** Closure state of the executor of [writeFile]. *)
Record WriteFileState : Type :=
  { wf_error : option value;
    wf_promise : state string value }.

(** [!x] on a variable that is [undefined] or holds a string. *)
Definition not_string (x : option string) : bool :=
  match x with
  | None => true
  | Some s => negb (string_truthy s)
  end.

(** [!x] on a variable that is [undefined] or holds a value. *)
Definition not_value (x : option value) : bool :=
  match x with
  | None => true
  | Some v => negb (truthy v)
  end.

(** ** Reading event sequences *)

(** The lines that a sequence of reader events carries, in order. *)
Definition lines_of (events : list LineEvent) : list string :=
  flat_map (fun ev =>
              match ev with
              | reader_line line => [line]
              | _ => []
              end)
           events.

(** Whether a stream event is a [data] event. *)
Definition is_data (ev : StreamEvent) : bool :=
  match ev with
  | stream_data _ => true
  | _ => false
  end.

(** [source.pipe(destination)], as the events of the destination: the
    chunks of the source are written to the destination and the end of the
    source ends it; an error of the source is not passed on.  The
    destination is given by what it delivers for what is written to it. *)
Definition pipe (source : list StreamEvent)
    (destination : list StreamEvent -> list StreamEvent)
    : list StreamEvent :=
  destination
    (filter (fun ev =>
               match ev with
               | stream_error _ => false
               | _ => true
               end)
            source).

(** ** The message relay of the queued-sender fixture

    The process sends ['ready'] when it starts and answers every message it
    receives with three copies of it and ['done'].  The state is the sequence
    of values handed to [sender.send], in call order. *)

Module Relay.

Definition start : list value := [text "ready"].

Definition on_message (sent : list value) (msg : value) : list value :=
  (sent ++ [msg; msg; msg; text "done"])%list.

(** The calls of [sender.send] after the given messages have arrived. *)
Definition sent (messages : list value) : list value :=
  deliver on_message messages start.

End Relay.

(** ** The language bridge of the extension host *)

Module ExtHost.

(** [promise.then(f)] for a callback that returns a plain value. *)
Definition then_ {A B E : Type} (promise : state A E) (f : A -> B)
    : state B E :=
  match promise with
  | Pending => Pending
  | Fulfilled a => Fulfilled (f a)
  | Rejected e => Rejected e
  end.

(** What [getDocumentData] returns when the document is known. *)
Record ExtHostDocumentData (TextDocument : Type) : Type :=
  { document : TextDocument }.
Arguments document {TextDocument} _.

(** [MainThreadLanguagesShape]: each call is the promise it returns. *)
Record MainThreadLanguagesShape (Uri : Type) : Type :=
  { proxy_getLanguages : state (list string) value;
    proxy_changeLanguage : Uri -> string -> state unit value }.
Arguments proxy_getLanguages {Uri} _.
Arguments proxy_changeLanguage {Uri} _ _ _.

(** [ExtHostLanguages]; [_documents] is the document store as the callback
    of [changeLanguage] finds it. *)
Record ExtHostLanguages (Uri TextDocument : Type) : Type :=
  { _proxy : MainThreadLanguagesShape Uri;
    _documents : Uri -> option (ExtHostDocumentData TextDocument) }.
Arguments _proxy {Uri TextDocument} _.
Arguments _documents {Uri TextDocument} _ _.

Definition getLanguages {Uri TextDocument : Type}
    (this : ExtHostLanguages Uri TextDocument) : state (list string) value :=
  proxy_getLanguages (_proxy this).

(** The result [None] is [undefined]. *)
Definition changeLanguage {Uri TextDocument : Type}
    (this : ExtHostLanguages Uri TextDocument) (uri : Uri)
    (languageId : string) : state (option TextDocument) value :=
  then_ (proxy_changeLanguage (_proxy this) uri languageId)
        (fun _ =>
           let data := _documents this uri in
           match data with
           | Some data => Some (document data)
           | None => None
           end).

End ExtHost.

(** ** A scripted collaborator

    Concrete stand-ins for the libraries and for the client, used to run the
    module on examples. *)

Module Sample.

(** The line feed, as [os.EOL]. *)
Definition EOL : string := String (Ascii.ascii_of_nat 10) EmptyString.

(** The value of a digit in the given radix (10 or 16). *)
Definition digit (radix : Z) (c : ascii) : option Z :=
  let n := Z.of_nat (Ascii.nat_of_ascii c) in
  if ((48 <=? n) && (n <=? 57))%Z then Some (n - 48)%Z
  else if ((radix =? 16) && (97 <=? n) && (n <=? 102))%Z then Some (n - 87)%Z
  else if ((radix =? 16) && (65 <=? n) && (n <=? 70))%Z then Some (n - 55)%Z
  else None.

Fixpoint digits (radix : Z) (acc : option Z) (s : string) : option Z :=
  match s with
  | EmptyString => acc
  | String c s' =>
      match digit radix c with
      | Some d =>
          digits radix
                 (Some (radix * match acc with Some a => a | None => 0 end
                        + d)%Z)
                 s'
      | None => acc
      end
  end.

(** Space, tab, line feed, vertical tab, form feed, carriage return. *)
Definition is_white_space (c : ascii) : bool :=
  let n := Z.of_nat (Ascii.nat_of_ascii c) in
  ((n =? 32) || ((9 <=? n) && (n <=? 13)))%Z.

Fixpoint skip_white_space (s : string) : string :=
  match s with
  | String c s' => if is_white_space c then skip_white_space s' else s
  | EmptyString => s
  end.

(** [Number.parseInt] without a radix argument, on text of one-byte units:
    leading white space is skipped, a sign is read, a [0x] or [0X] prefix
    selects radix 16, and the digits that follow give the value; [NaN] when
    there is none.  The value is exact; JavaScript rounds values above 2^53
    to a double. *)
Definition parseInt (s : string) : number :=
  let s := skip_white_space s in
  let (sign, s) :=
    match s with
    | String "-" s' => ((-1)%Z, s')
    | String "+" s' => (1%Z, s')
    | _ => (1%Z, s)
    end in
  let (radix, s) :=
    if startsWith "0x" s || startsWith "0X" s then (16%Z, drop 2 s)
    else (10%Z, s) in
  match digits radix None s with
  | Some z => Num (sign * z)
  | None => NaN
  end.

(** What [bytes] prints for a few sizes. *)
Definition bytes (n : option number) : string :=
  match n with
  | Some (Num 0) => "0B"
  | Some (Num 10) => "10B"
  | Some (Num 1024) => "1KB"
  | Some _ => "?B"
  | None => "null"
  end.

(** A number in decimal, as string concatenation prints it. *)
Definition decimal (z : Z) : string :=
  NilZero.string_of_int (Z.to_int z).

(** A byte-counting limiter, by what it delivers for what is written to
    it: chunks pass through and are counted; the chunk that takes the count
    over the maximum is followed by an error that names the maximum, and
    nothing more is delivered; the end of the input is the finish.  No
    error is ever written to it. *)
Fixpoint metered (max seen : Z) (written : list StreamEvent)
    : list StreamEvent :=
  match written with
  | [] => []
  | stream_data chunk :: rest =>
      let seen := (seen + Z.of_nat (String.length chunk))%Z in
      if (max <? seen)%Z
      then [stream_data chunk;
            stream_error
              (mkError "Error"
                 ("Stream exceeded specified max of " ++ decimal max
                  ++ " bytes."))]
      else stream_data chunk :: metered max seen rest
  | stream_finish :: rest => [stream_finish]
  | stream_error _ :: rest => metered max seen rest
  end.

(** [stream.pipe(meter(n))]: the limiter fed by [pipe], so that an error of
    the stream itself does not reach whoever listens to the result. *)
Definition meter (n : number) (events : list StreamEvent)
    : list StreamEvent :=
  match n with
  | Num max => pipe events (metered max 0)
  | NaN => pipe events (fun written => written)
  end.

(** A line reader over a stream each chunk of which is one line. *)
Definition createInterface (events : list StreamEvent) : list LineEvent :=
  map (fun ev =>
         match ev with
         | stream_data chunk => reader_line chunk
         | stream_error err => reader_error err
         | stream_finish => reader_close
         end)
      events.

Fixpoint only_separators (s : string) : bool :=
  match s with
  | EmptyString => true
  | String c s' => Ascii.eqb c "/" && only_separators s'
  end.

Fixpoint basename_from (acc s : string) : string :=
  match s with
  | EmptyString => acc
  | String c s' =>
      if Ascii.eqb c "/"
      then (if only_separators s' then acc
            else basename_from EmptyString s')
      else basename_from (acc ++ String c EmptyString) s'
  end.

(** [path.basename] for POSIX paths: the last segment, separators at the
    end of the path left aside. *)
Definition basename (s : string) : string := basename_from EmptyString s.

Definition getErrorMessage (e : Error) : string := message e.

Definition fs_createReadStream (file : string) : list StreamEvent :=
  [stream_data "local "; stream_data "bytes"; stream_finish].

Definition denied : Error := mkError "Error" "Permission denied".

(** A client over a small tree: a directory [/p] with a directory [d] and
    a file [f], a file [/big] of twenty bytes, a file [/lines] of five
    lines; nothing can be written, made or removed under [/ro]. *)
Definition hdfs : Client.IHdfsClient :=
  {| Client.readdir := fun dir =>
       if (dir =? "/p")%string
       then [(None, [ {| type := "DIRECTORY"; pathSuffix := "d" |};
                      {| type := "FILE"; pathSuffix := "f" |} ])]
       else [(Some denied, [])];
     Client.createReadStream := fun file =>
       if (file =? "/big")%string
       then [stream_data "0123456789"; stream_data "abcdefghij";
             stream_finish]
       else if (file =? "/lines")%string
       then [stream_data "one"; stream_data "two"; stream_data "three";
             stream_data "four"; stream_data "five"; stream_finish]
       else if (file =? "/line")%string
       then [stream_data "only"; stream_finish]
       else [stream_error denied];
     Client.createWriteStream := fun file source =>
       if startsWith "/ro/" file
       then [write_error (object denied); write_finish file]
       else [write_finish file];
     Client.mkdir := fun dir =>
       if startsWith "/ro/" dir then [object denied] else [undefined];
     Client.rmdir := fun file recursive =>
       if startsWith "/ro/" file then [object denied] else [undefined];
     Client.exists_ := fun file =>
       [(file =? "/p")%string || (file =? "/big")%string] |}.

Definition webhdfs_createClient (options : IHdfsOptions)
    (requestParams : IRequestParams) : Client.IHdfsClient := hdfs.

Definition options : IHdfsOptions :=
  {| host := Some "node:8020,50070"; port := None; protocol := None;
     user := Some "hdfs"; options_path := None; requestParams := None |}.

End Sample.

(** ** Further scripted collaborators *)

Module Scenario.

(** A client whose file [/stalled] delivers data and never ends, whose
    other files fail after two chunks, and whose answers to [mkdir] and
    [rmdir] carry [null] and the empty text. *)
Definition flaky : Client.IHdfsClient :=
  {| Client.readdir := fun dir => [];
     Client.createReadStream := fun file =>
       if (file =? "/stalled")%string
       then [stream_data "par"; stream_data "tial"]
       else [stream_data "one"; stream_data "two";
             stream_error Sample.denied; stream_finish];
     Client.createWriteStream := fun file source => [];
     Client.mkdir := fun dir => [null; object Sample.denied];
     Client.rmdir := fun file recursive => [text EmptyString];
     Client.exists_ := fun file => [] |}.

(** Options for a gateway that asks for credentials. *)
Definition secured : IHdfsOptions :=
  {| host := Some "gateway:8443";
     port := Some (Num 50070);
     protocol := Some "https";
     user := None;
     options_path := Some "gateway/default/webhdfs/v1";
     requestParams :=
       Some {| auth := Some {| auth_user := "admin"; pass := "secret" |};
               timeout := Some (Num 30000);
               agent := None |} |}.

(** Options without a host. *)
Definition hostless : IHdfsOptions :=
  {| host := None; port := Some (Num 50070); protocol := None;
     user := Some "hdfs"; options_path := None; requestParams := None |}.

(** A language bridge over one known document. *)
Definition bridge : ExtHost.ExtHostLanguages string string :=
  {| ExtHost._proxy :=
       {| ExtHost.proxy_getLanguages := Fulfilled ["sql"; "python"];
          ExtHost.proxy_changeLanguage := fun uri languageId =>
            if (languageId =? "sql")%string then Fulfilled tt
            else Rejected (text "Unknown language id") |};
     ExtHost._documents := fun uri =>
       if (uri =? "file:///query")%string
       then Some {| ExtHost.document := "query" |}
       else None |}.

End Scenario.

(** ** The module *)

Section HdfsFileSource.

(** [constants.hdfsRootPath], the root sentinel. *)
Variable hdfsRootPath : string.
(** [path.basename] *)
Variable basename : string -> string.
(** [utils.getErrorMessage] *)
Variable getErrorMessage : Error -> string.
(** The text that [bytes(maxBytes)] contributes to a template literal. *)
Variable bytes : option number -> string.
(** [stream.pipe(meter(n))]: the events of the metered stream. *)
Variable meter : number -> list StreamEvent -> list StreamEvent.
(** [Number.parseInt] *)
Variable parseInt : string -> number.
(** [os.EOL], the platform line terminator. *)
Variable EOL : string.
(** [readline.createInterface({input: stream})]: the events of the reader. *)
Variable createInterface : list StreamEvent -> list LineEvent.
(** [fs.createReadStream] on a local path. *)
Variable fs_createReadStream : string -> list StreamEvent.
(** [webhdfs.createClient] *)
Variable webhdfs_createClient :
  IHdfsOptions -> IRequestParams -> Client.IHdfsClient.

Definition joinHdfsPath (parent child : string) : string :=
  if (parent =? hdfsRootPath)%string then "/" ++ child
  else parent ++ "/" ++ child.

(** *** class File *)

Definition createPath (path fileName : string) : string :=
  joinHdfsPath path fileName.

Definition createChild (parent : IFile) (fileName : string)
    (isDirectory : bool) : IFile :=
  File (createPath (path parent) fileName) isDirectory.

Definition createFile (parent : IFile) (fileName : string) : IFile :=
  createChild parent fileName false.

Definition createDirectory (parent : IFile) (fileName : string) : IFile :=
  createChild parent fileName true.

Definition getBasename (file : IFile) : string :=
  basename (path file).

(** *** class FileSourceFactory *)

(** [None] is the TypeError of reading [indexOf] from an undefined host. *)
Definition setHostAndPort (options : IHdfsOptions) (delimeter : string)
    : option IHdfsOptions :=
  match host options with
  | None => None
  | Some optionsHost =>
      if (-1 <? indexOf optionsHost delimeter)%Z then
        let newHost := slice0 optionsHost (indexOf optionsHost delimeter) in
        let options := set_host newHost options in
        let remainder :=
          replace optionsHost (newHost ++ delimeter) EmptyString in
        Some (set_port (parseInt remainder) options)
      else Some options
  end.

Definition removePortFromHost (options : IHdfsOptions)
    : option IHdfsOptions :=
  match setHostAndPort options "," with
  | None => None
  | Some options => setHostAndPort options ":"
  end.

(** [options.host] as a condition: defined and not empty. *)
Definition host_truthy (options : IHdfsOptions) : bool :=
  match host options with
  | None => false
  | Some h => string_truthy h
  end.

(** The two arguments [createHdfsFileSource] passes to
    [webhdfs.createClient].  [requestParams] is the object held by
    [options.requestParams] when there is one, so the agent stored into it
    shows in the options as well. *)
Definition createClientArguments (options : IHdfsOptions)
    : option (IHdfsOptions * IRequestParams) :=
  match (if host_truthy options then removePortFromHost options
         else Some options) with
  | None => None
  | Some options =>
      let given := requestParams options in
      let requestParams :=
        match given with
        | Some rp => rp
        | None => empty_requestParams
        end in
      match auth requestParams with
      | Some _ =>
          let agentOptions :=
            {| agent_host := host options;
               agent_port := port options;
               agent_path := hdfsRootPath;
               rejectUnauthorized := false |} in
          let requestParams := set_agent agentOptions requestParams in
          Some (match given with
                | Some _ => set_requestParams requestParams options
                | None => options
                end, requestParams)
      | None => Some (options, requestParams)
      end
  end.

(** [HdfsFileSource] holds its client. *)
Record HdfsFileSource : Type :=
  mkHdfsFileSource { client : Client.IHdfsClient }.

Definition createHdfsFileSource (options : IHdfsOptions)
    : option HdfsFileSource :=
  match createClientArguments options with
  | None => None
  | Some (options, requestParams) =>
      Some (mkHdfsFileSource (webhdfs_createClient options requestParams))
  end.

(** [createHdfsFileSource(options)] for an argument that may be missing
    ([undefined] or [null], here [None]).  The test [options &&] keeps the
    normalization away from a missing argument, and the next statement
    reads [options.requestParams] from it: a TypeError, the result [None]. *)
Definition createHdfsFileSource_call (options : option IHdfsOptions)
    : option HdfsFileSource :=
  match options with
  | None => None
  | Some options => createHdfsFileSource options
  end.

(** *** class HdfsFileSource *)

Definition enumerateFiles_callback (path : string)
    (promise : state (list IFile) value)
    (args : option Error * list IHdfsFileStatus)
    : state (list IFile) value :=
  let (error, files) := args in
  match error with
  | Some error => reject (text (message error)) promise
  | None =>
      let hdfsFiles :=
        map (fun hdfsFile =>
               File (createPath path (pathSuffix hdfsFile))
                    (type hdfsFile =? "DIRECTORY")%string)
            files in
      resolve hdfsFiles promise
  end.

Definition enumerateFiles (this : HdfsFileSource) (path : string)
    : state (list IFile) value :=
  deliver (enumerateFiles_callback path)
          (Client.readdir (client this) path) Pending.

(** The callback of [mkdir] and of [delete]; [resolve(undefined)] is
    fulfilment with [tt]. *)
Definition void_callback (promise : state unit value) (err : value)
    : state unit value :=
  if truthy err then reject err promise else resolve tt promise.

Definition mkdir (this : HdfsFileSource) (dirName remoteBasePath : string)
    : state unit value :=
  let remotePath := joinHdfsPath remoteBasePath dirName in
  deliver void_callback (Client.mkdir (client this) remotePath) Pending.

Definition createReadStream (this : HdfsFileSource) (path : string)
    : list StreamEvent :=
  Client.createReadStream (client this) path.

(** [if (maxBytes)] on the optional parameter. *)
Definition maxBytes_truthy (maxBytes : option number) : bool :=
  match maxBytes with
  | None => false
  | Some n => number_truthy n
  end.

Definition readFile_start : ReadFileState :=
  {| rf_data := []; rf_error := None; rf_finish_listener := true;
     rf_promise := Pending |}.

(** The three listeners of [readFile]; the one for [finish] is registered
    with [once] and is removed when it runs. *)
Definition readFile_on (maxBytes : option number) (s : ReadFileState)
    (ev : StreamEvent) : ReadFileState :=
  match ev with
  | stream_error err =>
      let error := Error_toString err in
      let error :=
        if includes error "Stream exceeded specified max"
        then "File exceeds max size of " ++ bytes maxBytes
        else error in
      {| rf_data := rf_data s; rf_error := Some error;
         rf_finish_listener := rf_finish_listener s;
         rf_promise := reject (text error) (rf_promise s) |}
  | stream_data chunk =>
      {| rf_data := (rf_data s ++ [chunk])%list; rf_error := rf_error s;
         rf_finish_listener := rf_finish_listener s;
         rf_promise := rf_promise s |}
  | stream_finish =>
      if rf_finish_listener s then
        {| rf_data := rf_data s; rf_error := rf_error s;
           rf_finish_listener := false;
           rf_promise :=
             if not_string (rf_error s)
             then resolve (Buffer_concat (rf_data s)) (rf_promise s)
             else rf_promise s |}
      else s
  end.

(** The stream the listeners of [readFile] are attached to. *)
Definition readFile_stream (this : HdfsFileSource) (path : string)
    (maxBytes : option number) : list StreamEvent :=
  let remoteFileStream := Client.createReadStream (client this) path in
  match maxBytes with
  | Some n =>
      if number_truthy n then meter n remoteFileStream
      else remoteFileStream
  | None => remoteFileStream
  end.

Definition readFile (this : HdfsFileSource) (path : string)
    (maxBytes : option number) : state string value :=
  rf_promise (deliver (readFile_on maxBytes)
                      (readFile_stream this path maxBytes) readFile_start).

Definition readFileLines_start : ReadLinesState :=
  {| rl_lineCount := 0; rl_lineData := []; rl_errorMsg := None;
     rl_closed := false; rl_promise := Pending |}.

Definition readFileLines_on (maxLines : number) (s : ReadLinesState)
    (ev : LineEvent) : ReadLinesState :=
  match ev with
  | reader_line line =>
      let lineCount := (rl_lineCount s + 1)%Z in
      let lineData := (rl_lineData s ++ [line])%list in
      if geq (Num lineCount) maxLines then
        {| rl_lineCount := lineCount; rl_lineData := lineData;
           rl_errorMsg := rl_errorMsg s;
           rl_closed := true;
           rl_promise :=
             resolve (Buffer_from (join EOL lineData)) (rl_promise s) |}
      else
        {| rl_lineCount := lineCount; rl_lineData := lineData;
           rl_errorMsg := rl_errorMsg s;
           rl_closed := rl_closed s;
           rl_promise := rl_promise s |}
  | reader_error err =>
      let errorMsg := getErrorMessage err in
      {| rl_lineCount := rl_lineCount s; rl_lineData := rl_lineData s;
         rl_errorMsg := Some errorMsg;
         rl_closed := rl_closed s;
         rl_promise := reject (text errorMsg) (rl_promise s) |}
  | reader_close =>
      if not_string (rl_errorMsg s) then
        {| rl_lineCount := rl_lineCount s; rl_lineData := rl_lineData s;
           rl_errorMsg := rl_errorMsg s;
           rl_closed := rl_closed s;
           rl_promise :=
             resolve (Buffer_from (join EOL (rl_lineData s)))
                     (rl_promise s) |}
      else s
  end.

(** The events of the line reader of [readFileLines]. *)
Definition readFileLines_reader (this : HdfsFileSource) (path : string)
    : list LineEvent :=
  createInterface (Client.createReadStream (client this) path).

(** The executor of [readFileLines] after all events of the reader. *)
Definition readFileLines_run (this : HdfsFileSource) (path : string)
    (maxLines : number) : ReadLinesState :=
  deliver (readFileLines_on maxLines) (readFileLines_reader this path)
          readFileLines_start.

Definition readFileLines (this : HdfsFileSource) (path : string)
    (maxLines : number) : state string value :=
  rl_promise (readFileLines_run this path maxLines).

Definition writeFile_start : WriteFileState :=
  {| wf_error := None; wf_promise := Pending |}.

Definition writeFile_on (s : WriteFileState) (ev : WriteEvent)
    : WriteFileState :=
  match ev with
  | write_error err =>
      {| wf_error := Some err; wf_promise := reject err (wf_promise s) |}
  | write_finish location =>
      if not_value (wf_error s) then
        {| wf_error := wf_error s;
           wf_promise := resolve location (wf_promise s) |}
      else s
  end.

(** The events of the remote write stream of [writeFile], fed by the local
    read stream. *)
Definition writeFile_stream (this : HdfsFileSource) (localFile : IFile)
    (remoteDirPath : string) : list WriteEvent :=
  let fileName := basename (path localFile) in
  let remotePath := joinHdfsPath remoteDirPath fileName in
  let readStream := fs_createReadStream (path localFile) in
  Client.createWriteStream (client this) remotePath readStream.

Definition writeFile (this : HdfsFileSource) (localFile : IFile)
    (remoteDirPath : string) : state string value :=
  wf_promise (deliver writeFile_on
                      (writeFile_stream this localFile remoteDirPath)
                      writeFile_start).

(** [delete(path, recursive = false)] *)
Definition delete (this : HdfsFileSource) (path : string)
    (recursive : option bool) : state unit value :=
  let recursive := match recursive with Some b => b | None => false end in
  deliver void_callback (Client.rmdir (client this) path recursive) Pending.

Definition exists_callback (promise : state bool value) (result : bool)
    : state bool value :=
  resolve result promise.

(** [exists(path)] *)
Definition exists_ (this : HdfsFileSource) (path : string)
    : state bool value :=
  deliver exists_callback (Client.exists_ (client this) path) Pending.

(** What the executor of [readFileLines] keeps true while events arrive:
    all lines delivered so far are stored and counted; a pending promise has
    seen fewer lines than the limit, or none; a fulfilled promise holds some
    first lines, at most the limit of them and at most one when the limit is
    below one. *)
Definition readFileLines_invariant (n : Z) (seen : list string)
    (s : ReadLinesState) : Prop :=
  rl_lineData s = seen /\
  rl_lineCount s = Z.of_nat (List.length seen) /\
  (rl_promise s = Pending ->
   (rl_lineCount s < n)%Z \/ rl_lineCount s = 0%Z) /\
  (forall v, rl_promise s = Fulfilled v ->
             exists first rest,
               seen = (first ++ rest)%list /\
               v = Buffer_from (join EOL first) /\
               (Z.of_nat (List.length first) <= Z.max 1 n)%Z).

(** ** Properties of the string built-ins *)

Lemma startsWith_append (a s : string) : startsWith a (a ++ s) = true.
Proof.
  induction a as [|c a IH]; simpl; [reflexivity|].
  now rewrite Ascii.eqb_refl, IH.
Qed.

Lemma startsWith_split (pat s : string) :
  startsWith pat s = true <-> exists b, s = pat ++ b.
Proof.
  split.
  - revert s; induction pat as [|c pat IH]; intros s H; simpl in *.
    + now exists s.
    + destruct s as [|x s]; [discriminate|].
      apply andb_true_iff in H as [Hc Hs].
      apply Ascii.eqb_eq in Hc; subst x.
      destruct (IH _ Hs) as [b ->]. now exists b.
  - intros [b ->]. apply startsWith_append.
Qed.

Lemma take_append (a s : string) : take (String.length a) (a ++ s) = a.
Proof.
  induction a as [|c a IH]; simpl.
  - now destruct s.
  - now rewrite IH.
Qed.

Lemma drop_append (a s : string) : drop (String.length a) (a ++ s) = s.
Proof. induction a as [|c a IH]; simpl; auto. Qed.

Lemma append_assoc (a b c : string) : (a ++ b) ++ c = a ++ (b ++ c).
Proof. induction a as [|x a IH]; simpl; [reflexivity | now rewrite IH]. Qed.

Lemma indexOf_lower (s pat : string) : (-1 <= indexOf s pat)%Z.
Proof.
  induction s as [|x s IH]; simpl.
  - destruct (startsWith pat EmptyString); lia.
  - destruct (startsWith pat (String x s)); [lia|].
    destruct (indexOf s pat <? 0)%Z eqn:E; lia.
Qed.

(** [indexOf] finds an occurrence exactly when there is one. *)
Lemma indexOf_found (s pat : string) :
  indexOf s pat <> (-1)%Z <-> exists a b, s = a ++ pat ++ b.
Proof.
  split.
  - induction s as [|x s IH]; simpl.
    + destruct (startsWith pat EmptyString) eqn:E; [|congruence].
      intros _. apply startsWith_split in E as [b E]. now exists EmptyString, b.
    + destruct (startsWith pat (String x s)) eqn:E.
      * intros _. apply startsWith_split in E as [b E].
        now exists EmptyString, b.
      * destruct (indexOf s pat <? 0)%Z eqn:L; [congruence|].
        intros _. apply Z.ltb_ge in L.
        destruct IH as (a & b & ->); [lia|].
        now exists (String x a), b.
  - intros (a & b & ->).
    induction a as [|x a IH]; simpl.
    + change (pat ++ b) with (EmptyString ++ pat ++ b).
      assert (H : startsWith pat (pat ++ b) = true) by apply startsWith_append.
      destruct pat as [|p pat]; simpl in *.
      * destruct b; simpl; lia.
      * rewrite H. lia.
    + destruct (startsWith pat (String x (a ++ pat ++ b))); [lia|].
      pose proof (indexOf_lower (a ++ pat ++ b) pat).
      destruct (indexOf (a ++ pat ++ b) pat <? 0)%Z eqn:L; [|lia].
      apply Z.ltb_lt in L. lia.
Qed.

Lemma includes_true (s pat : string) :
  includes s pat = true <-> exists a b, s = a ++ pat ++ b.
Proof.
  unfold includes. rewrite negb_true_iff, Z.eqb_neq. apply indexOf_found.
Qed.

Lemma includes_false (s pat : string) :
  includes s pat = false <-> indexOf s pat = (-1)%Z.
Proof. unfold includes. now rewrite negb_false_iff, Z.eqb_eq. Qed.

(** A one-unit pattern: the first occurrence splits the string. *)
Lemma indexOf_unit_split (c : ascii) (s : string) :
  indexOf s (String c EmptyString) = (-1)%Z \/
  exists a b, s = a ++ String c b /\
              indexOf a (String c EmptyString) = (-1)%Z /\
              indexOf s (String c EmptyString) = Z.of_nat (String.length a).
Proof.
  induction s as [|x s IH].
  - now left.
  - cbn [indexOf startsWith].
    destruct (Ascii.eqb c x) eqn:E; cbn [andb].
    + right. apply Ascii.eqb_eq in E; subst x. now exists EmptyString, s.
    + destruct IH as [IH | (a & b & -> & Ha & Hs)].
      * left. now rewrite IH.
      * right. exists (String x a), b. split; [reflexivity|]. split.
        -- cbn [indexOf startsWith]. now rewrite E, Ha.
        -- rewrite Hs. cbn [String.length].
           destruct (Z.of_nat (String.length a) <? 0)%Z eqn:L; [|lia].
           apply Z.ltb_lt in L. lia.
Qed.

(** A string without the unit has no prefix with it. *)
Lemma indexOf_unit_prefix (c : ascii) (a b : string) :
  indexOf (a ++ b) (String c EmptyString) = (-1)%Z ->
  indexOf a (String c EmptyString) = (-1)%Z.
Proof.
  induction a as [|x a IH]; [reflexivity|].
  cbn [append indexOf startsWith].
  destruct (Ascii.eqb c x); cbn [andb]; [discriminate|].
  pose proof (indexOf_lower (a ++ b) (String c EmptyString)).
  destruct (indexOf (a ++ b) (String c EmptyString) <? 0)%Z eqn:L; [|lia].
  intros _. rewrite IH; [reflexivity|]. apply Z.ltb_lt in L. lia.
Qed.

(** The first occurrence of a unit sits right after a prefix without it. *)
Lemma indexOf_unit_first (c : ascii) (a b : string) :
  indexOf a (String c EmptyString) = (-1)%Z ->
  indexOf (a ++ String c b) (String c EmptyString) = Z.of_nat (String.length a).
Proof.
  induction a as [|x a IH]; cbn [append indexOf startsWith].
  - now rewrite Ascii.eqb_refl.
  - destruct (Ascii.eqb c x); cbn [andb]; [discriminate|].
    pose proof (indexOf_lower a (String c EmptyString)).
    destruct (indexOf a (String c EmptyString) <? 0)%Z eqn:L; [|lia].
    apply Z.ltb_lt in L. intros _. rewrite IH by lia. cbn [String.length].
    destruct (Z.of_nat (String.length a) <? 0)%Z eqn:L'; [|lia].
    apply Z.ltb_lt in L'. lia.
Qed.

Lemma replace_prefix (p s : string) : replace (p ++ s) p EmptyString = s.
Proof.
  destruct p as [|y p]; [now destruct s|].
  cbn [replace append]. change (String y (p ++ s)) with (String y p ++ s).
  now rewrite startsWith_append, drop_append.
Qed.

(** ** The factory: host normalization *)

(** A host split at the first occurrence of a one-unit delimiter. *)
Lemma setHostAndPort_found (options : IHdfsOptions) (c : ascii)
    (a b : string) :
  host options = Some (a ++ String c b) ->
  indexOf a (String c EmptyString) = (-1)%Z ->
  setHostAndPort options (String c EmptyString)
  = Some (set_port (parseInt b) (set_host a options)).
Proof.
  intros Hh Ha. unfold setHostAndPort.
  rewrite Hh, (indexOf_unit_first c a b Ha).
  replace (-1 <? Z.of_nat (String.length a))%Z with true
    by (symmetry; apply Z.ltb_lt; lia).
  unfold slice0.
  replace (Z.of_nat (String.length a) <? 0)%Z with false
    by (symmetry; apply Z.ltb_ge; lia).
  rewrite Nat2Z.id, take_append.
  replace (a ++ String c b) with ((a ++ String c EmptyString) ++ b)
    by (now rewrite append_assoc).
  now rewrite replace_prefix.
Qed.

Lemma setHostAndPort_absent (options : IHdfsOptions) (h delimeter : string) :
  host options = Some h ->
  indexOf h delimeter = (-1)%Z ->
  setHostAndPort options delimeter = Some options.
Proof.
  intros Hh Hn. unfold setHostAndPort. now rewrite Hh, Hn.
Qed.

(** [createHdfsFileSource] hands the normalized host and port on to
    [webhdfs.createClient]. *)
Lemma createClientArguments_host_port (options normalized : IHdfsOptions) :
  host_truthy options = true ->
  removePortFromHost options = Some normalized ->
  exists options' requestParams,
    createClientArguments options = Some (options', requestParams) /\
    host options' = host normalized /\ port options' = port normalized.
Proof.
  intros Ht Hr. unfold createClientArguments. rewrite Ht, Hr.
  destruct (requestParams normalized) as [rp|]; cbn [auth empty_requestParams].
  - destruct (auth rp); eexists _, _; (split; [reflexivity|]); now split.
  - eexists _, _; (split; [reflexivity|]); now split.
Qed.

Lemma includes_host_truthy (options : IHdfsOptions) (h : string) :
  host options = Some h ->
  includes h "," || includes h ":" = true ->
  host_truthy options = true.
Proof.
  intros Hh Hd. unfold host_truthy. rewrite Hh.
  destruct h; [discriminate Hd | reflexivity].
Qed.

(** C1.  For options whose host contains a delimiter, normalization splits
    at the first comma and then, in what is left as host, at the first
    colon.  Each split that finds its delimiter replaces the host by the
    text before the delimiter and overwrites the port by [parseInt] of the
    text after it; a split that does not find it changes nothing.  The
    normalized host contains neither delimiter, the port is set to a
    number, the other options are untouched, and these host and port are
    the ones the factory passes on to the client. *)
Theorem removePortFromHost_normalizes (options : IHdfsOptions) (h : string) :
  host options = Some h ->
  includes h "," || includes h ":" = true ->
  exists afterComma normalized : IHdfsOptions,
    setHostAndPort options "," = Some afterComma /\
    setHostAndPort afterComma ":" = Some normalized /\
    removePortFromHost options = Some normalized /\
    (exists options' requestParams,
        createClientArguments options = Some (options', requestParams) /\
        host options' = host normalized /\
        port options' = port normalized) /\
    (includes h "," = true ->
     exists a b, h = a ++ "," ++ b /\ includes a "," = false /\
                 host afterComma = Some a /\
                 port afterComma = Some (parseInt b)) /\
    (includes h "," = false -> afterComma = options) /\
    (exists h1, host afterComma = Some h1 /\
       (includes h1 ":" = true ->
        exists c d, h1 = c ++ ":" ++ d /\ includes c ":" = false /\
                    host normalized = Some c /\
                    port normalized = Some (parseInt d)) /\
       (includes h1 ":" = false -> normalized = afterComma)) /\
    (exists h2 n, host normalized = Some h2 /\
                  includes h2 "," = false /\ includes h2 ":" = false /\
                  port normalized = Some n) /\
    protocol normalized = protocol options /\
    user normalized = user options /\
    options_path normalized = options_path options /\
    requestParams normalized = requestParams options.
Proof.
  intros Hh Hd.
  (* the comma step *)
  assert (C : exists o1 h1,
             setHostAndPort options "," = Some o1 /\ host o1 = Some h1 /\
             includes h1 "," = false /\
             (includes h "," = true ->
              exists a b, h = a ++ "," ++ b /\ includes a "," = false /\
                          host o1 = Some a /\ port o1 = Some (parseInt b)) /\
             (includes h "," = false -> o1 = options) /\
             (includes h "," = false -> h1 = h) /\
             (includes h "," = true -> exists n, port o1 = Some n) /\
             protocol o1 = protocol options /\ user o1 = user options /\
             options_path o1 = options_path options /\
             requestParams o1 = requestParams options).
  { destruct (indexOf_unit_split "," h) as [Hn | (a & b & E & Ha & _)].
    - exists options, h. rewrite (setHostAndPort_absent _ _ _ Hh Hn).
      apply includes_false in Hn. rewrite Hn.
      repeat split; auto; discriminate.
    - subst h. exists (set_port (parseInt b) (set_host a options)), a.
      rewrite (setHostAndPort_found _ _ _ _ Hh Ha).
      assert (Hi : includes (a ++ String "," b) "," = true).
      { apply includes_true. now exists a, b. }
      rewrite Hi. apply includes_false in Ha.
      repeat split; auto; try discriminate.
      + intros _. now exists a, b.
      + intros _. now eexists. }
  destruct C as (o1 & h1 & S1 & Hh1 & Hc1 & Cfound & Cabsent & Csame & Cport
                    & P1 & U1 & O1 & R1).
  (* the colon step *)
  assert (D : exists o2 h2,
             setHostAndPort o1 ":" = Some o2 /\ host o2 = Some h2 /\
             includes h2 "," = false /\ includes h2 ":" = false /\
             (includes h1 ":" = true ->
              exists c d, h1 = c ++ ":" ++ d /\ includes c ":" = false /\
                          host o2 = Some c /\ port o2 = Some (parseInt d)) /\
             (includes h1 ":" = false -> o2 = o1) /\
             (includes h1 ":" = true -> exists n, port o2 = Some n) /\
             protocol o2 = protocol o1 /\ user o2 = user o1 /\
             options_path o2 = options_path o1 /\
             requestParams o2 = requestParams o1).
  { destruct (indexOf_unit_split ":" h1) as [Hn | (c & d & E & Hc & _)].
    - exists o1, h1. rewrite (setHostAndPort_absent _ _ _ Hh1 Hn).
      apply includes_false in Hn. rewrite Hn.
      repeat split; auto; discriminate.
    - subst h1. exists (set_port (parseInt d) (set_host c o1)), c.
      rewrite (setHostAndPort_found _ _ _ _ Hh1 Hc).
      assert (Hi : includes (c ++ String ":" d) ":" = true).
      { apply includes_true. now exists c, d. }
      rewrite Hi.
      assert (Hcc : includes c "," = false).
      { apply includes_false. apply includes_false in Hc1.
        now apply indexOf_unit_prefix with (b := String ":" d). }
      apply includes_false in Hc.
      repeat split; auto; try discriminate.
      + intros _. now exists c, d.
      + intros _. now eexists. }
  destruct D as (o2 & h2 & S2 & Hh2 & Hc2 & Hk2 & Dfound & Dabsent & Dport
                    & P2 & U2 & O2 & R2).
  assert (R : removePortFromHost options = Some o2).
  { unfold removePortFromHost. now rewrite S1. }
  exists o1, o2.
  split; [exact S1|]. split; [exact S2|]. split; [exact R|].
  split.
  { apply createClientArguments_host_port; [|exact R].
    now apply includes_host_truthy with (h := h). }
  split; [exact Cfound|]. split; [exact Cabsent|].
  split.
  { exists h1. split; [exact Hh1|]. now split. }
  split.
  { assert (N : exists n, port o2 = Some n).
    { destruct (includes h1 ":") eqn:Ek; [now apply Dport|].
      rewrite (Dabsent eq_refl).
      destruct (includes h ",") eqn:Ec; [now apply Cport|].
      rewrite (Csame eq_refl) in Ek. rewrite Ek in Hd. discriminate Hd. }
    destruct N as [n N]. now exists h2, n. }
  repeat split; congruence.
Qed.

(** ** Settling a promise *)

Lemma resolve_settled {A E : Type} (a : A) (p : state A E) :
  settled p = true -> resolve a p = p.
Proof. now destruct p. Qed.

Lemma reject_settled {A E : Type} (e : E) (p : state A E) :
  settled p = true -> reject e p = p.
Proof. now destruct p. Qed.

(** A promise that no handler changes once it has settled keeps its state
    whatever events follow. *)
Lemma deliver_settled {Ev St A E : Type} (handler : St -> Ev -> St)
    (promise : St -> state A E) :
  (forall s ev, settled (promise s) = true ->
                promise (handler s ev) = promise s) ->
  forall events s, settled (promise s) = true ->
                   promise (deliver handler events s) = promise s.
Proof.
  intros Hstep events. unfold deliver.
  induction events as [|ev events IH]; intros s Hs; [reflexivity|].
  cbn [fold_left]. rewrite IH.
  - now apply Hstep.
  - now rewrite Hstep.
Qed.

Lemma deliver_app {Ev St : Type} (handler : St -> Ev -> St)
    (before after : list Ev) (s : St) :
  deliver handler (before ++ after)%list s
  = deliver handler after (deliver handler before s).
Proof. apply fold_left_app. Qed.

Lemma enumerateFiles_callback_settled (p : string)
    (promise : state (list IFile) value) args :
  settled promise = true -> enumerateFiles_callback p promise args = promise.
Proof.
  intros H. destruct args as [[error|] files]; cbn.
  - now apply reject_settled.
  - now apply resolve_settled.
Qed.

Lemma void_callback_settled (promise : state unit value) (err : value) :
  settled promise = true -> void_callback promise err = promise.
Proof.
  intros H. unfold void_callback.
  destruct (truthy err); [now apply reject_settled | now apply resolve_settled].
Qed.

(** ** The path joiner *)

(** C9.  The joiner gives ["/" + child] under the root sentinel and
    [parent + "/" + child] under any other parent; so a child ["a"] of the
    root is ["/a"], and a child ["b"] of ["/a"] (which is not the root) is
    ["/a/b"]. *)
Theorem joinHdfsPath_root_or_parent (parent child : string) :
  (parent = hdfsRootPath -> joinHdfsPath parent child = "/" ++ child) /\
  (parent <> hdfsRootPath ->
   joinHdfsPath parent child = parent ++ "/" ++ child) /\
  joinHdfsPath hdfsRootPath "a" = "/a" /\
  ("/a" <> hdfsRootPath -> joinHdfsPath "/a" "b" = "/a/b").
Proof.
  unfold joinHdfsPath. repeat split.
  - intros ->. now rewrite String.eqb_refl.
  - intros H. apply String.eqb_neq in H. now rewrite H.
  - now rewrite String.eqb_refl.
  - intros H. apply String.eqb_neq in H. now rewrite H.
Qed.

(** ** Operations completed by one callback *)

(** C5.  When the client answers the listing without error, the promise is
    fulfilled with one [File] per entry, in the order of the listing: the
    i-th file has the joined path of the i-th entry and is a directory
    exactly when the type of that entry is ['DIRECTORY']. *)
Theorem enumerateFiles_maps_listing (this : HdfsFileSource) (dir : string)
    (files : list IHdfsFileStatus)
    (later : list (option Error * list IHdfsFileStatus)) :
  Client.readdir (client this) dir = (None, files) :: later ->
  exists hdfsFiles : list IFile,
    enumerateFiles this dir = Fulfilled hdfsFiles /\
    List.length hdfsFiles = List.length files /\
    forall i entry,
      nth_error files i = Some entry ->
      exists file,
        nth_error hdfsFiles i = Some file /\
        path file = joinHdfsPath dir (pathSuffix entry) /\
        (isDirectory file = true <-> type entry = "DIRECTORY").
Proof.
  intros Hc. unfold enumerateFiles. rewrite Hc.
  eexists. split.
  - change ((None, files) :: later) with ([(None, files)] ++ later)%list.
    rewrite deliver_app.
    rewrite (deliver_settled (enumerateFiles_callback dir) (fun p => p)).
    + reflexivity.
    + intros s ev. apply enumerateFiles_callback_settled.
    + reflexivity.
  - split; [apply length_map|].
    intros i entry Hi. eexists. split.
    + rewrite nth_error_map, Hi. reflexivity.
    + cbn. split; [reflexivity | apply String.eqb_eq].
Qed.

(** C7.  On a client error [enumerateFiles] rejects with the message text
    of the error, [mkdir] and [delete] with the error value as the client
    gave it; for an error object the two shapes differ. *)
Theorem client_error_shapes (this : HdfsFileSource) :
  (forall dir error files later,
      Client.readdir (client this) dir = (Some error, files) :: later ->
      enumerateFiles this dir = Rejected (text (message error))) /\
  (forall dirName remoteBasePath err later,
      Client.mkdir (client this) (joinHdfsPath remoteBasePath dirName)
      = err :: later ->
      truthy err = true ->
      mkdir this dirName remoteBasePath = Rejected err) /\
  (forall file recursive err later,
      Client.rmdir (client this) file
                   (match recursive with Some b => b | None => false end)
      = err :: later ->
      truthy err = true ->
      delete this file recursive = Rejected err) /\
  (forall error : Error, text (message error) <> object error).
Proof.
  split; [|split; [|split]].
  - intros dir error files later Hc. unfold enumerateFiles. rewrite Hc.
    change ((Some error, files) :: later)
      with ([(Some error, files)] ++ later)%list.
    rewrite deliver_app.
    rewrite (deliver_settled (enumerateFiles_callback dir) (fun p => p)).
    + reflexivity.
    + intros s ev. apply enumerateFiles_callback_settled.
    + reflexivity.
  - intros dirName remoteBasePath err later Hc Ht. unfold mkdir.
    rewrite Hc. change (err :: later) with ([err] ++ later)%list.
    rewrite deliver_app.
    rewrite (deliver_settled void_callback (fun p => p)).
    + cbn. unfold void_callback. now rewrite Ht.
    + intros s ev. apply void_callback_settled.
    + cbn. unfold void_callback. now rewrite Ht.
  - intros file recursive err later Hc Ht. unfold delete.
    rewrite Hc. change (err :: later) with ([err] ++ later)%list.
    rewrite deliver_app.
    rewrite (deliver_settled void_callback (fun p => p)).
    + cbn. unfold void_callback. now rewrite Ht.
    + intros s ev. apply void_callback_settled.
    + cbn. unfold void_callback. now rewrite Ht.
  - discriminate.
Qed.

Lemma exists_callback_never_rejects (results : list bool)
    (promise : state bool value) :
  (forall e, promise <> Rejected e) ->
  forall e, deliver exists_callback results promise <> Rejected e.
Proof.
  revert promise. unfold deliver.
  induction results as [|r results IH]; intros promise Hp e; cbn.
  - apply Hp.
  - apply IH. intros e'. destruct promise; cbn; try discriminate. apply Hp.
Qed.

(** C8.  [exists] is fulfilled with the boolean the client's callback
    reports, and whatever the client reports it is never rejected. *)
Theorem exists_resolves_never_rejects (this : HdfsFileSource)
    (file : string) :
  (forall result later,
      Client.exists_ (client this) file = result :: later ->
      exists_ this file = Fulfilled result) /\
  (forall e, exists_ this file <> Rejected e).
Proof.
  split.
  - intros result later Hc. unfold exists_. rewrite Hc.
    change (result :: later) with ([result] ++ later)%list.
    rewrite deliver_app.
    rewrite (deliver_settled exists_callback (fun p => p)); try reflexivity.
    intros s ev Hs. now apply resolve_settled.
  - apply exists_callback_never_rejects. discriminate.
Qed.

(** ** Operations completed by stream events *)

Lemma readFile_on_settled (maxBytes : option number) (s : ReadFileState)
    (ev : StreamEvent) :
  settled (rf_promise s) = true ->
  rf_promise (readFile_on maxBytes s ev) = rf_promise s.
Proof.
  intros H. destruct ev as [err|chunk|]; cbn.
  - now apply reject_settled.
  - reflexivity.
  - destruct (rf_finish_listener s); cbn; [|reflexivity].
    destruct (not_string (rf_error s)); [now apply resolve_settled|reflexivity].
Qed.

(** Data events only collect their chunks. *)
Lemma readFile_on_data (maxBytes : option number) (chunks : list string)
    (s : ReadFileState) :
  deliver (readFile_on maxBytes) (map stream_data chunks) s
  = {| rf_data := (rf_data s ++ chunks)%list; rf_error := rf_error s;
       rf_finish_listener := rf_finish_listener s;
       rf_promise := rf_promise s |}.
Proof.
  revert s. unfold deliver.
  induction chunks as [|chunk chunks IH]; intros s; cbn [map fold_left].
  - rewrite app_nil_r. now destruct s.
  - rewrite IH. cbn. now rewrite <- app_assoc.
Qed.

(** The guard of the [finish] listener: a captured error text that is not
    empty keeps it from resolving, whatever the promise. *)
Lemma readFile_finish_guard (maxBytes : option number) (s : ReadFileState)
    (captured : string) :
  rf_error s = Some captured ->
  string_truthy captured = true ->
  rf_promise (readFile_on maxBytes s stream_finish) = rf_promise s.
Proof.
  intros He Ht. cbn. destruct (rf_finish_listener s); [|reflexivity].
  cbn. unfold not_string. now rewrite He, Ht.
Qed.

(** What the listeners of [readFile] do with an error of the stream they
    are attached to.  With a byte limit, when the first event of that
    stream that is not data is an error, the promise is rejected: with the
    message naming the configured maximum when the text of the error
    includes the limiter's phrase, with the text of the error itself
    otherwise.  The promise is pending up to that event; the event stores
    the reason in the error variable and rejects the promise; and the
    promise has this same state at every later point of the stream,
    whatever follows (a finish included). *)
Theorem readFile_error_settles_once (this : HdfsFileSource) (file : string)
    (maxBytes : number) (chunks : list string) (err : Error)
    (later : list StreamEvent) :
  readFile_stream this file (Some maxBytes)
  = (map stream_data chunks ++ stream_error err :: later)%list ->
  exists reason : string,
    (includes (Error_toString err) "Stream exceeded specified max" = true ->
     reason = "File exceeds max size of " ++ bytes (Some maxBytes)) /\
    (includes (Error_toString err) "Stream exceeded specified max" = false ->
     reason = Error_toString err) /\
    readFile this file (Some maxBytes) = Rejected (text reason) /\
    rf_promise (deliver (readFile_on (Some maxBytes))
                        (map stream_data chunks) readFile_start) = Pending /\
    rf_error (deliver (readFile_on (Some maxBytes))
                      (map stream_data chunks ++ [stream_error err])
                      readFile_start) = Some reason /\
    (forall before after : list StreamEvent,
        later = (before ++ after)%list ->
        rf_promise (deliver (readFile_on (Some maxBytes))
                      (map stream_data chunks ++ stream_error err :: before)
                      readFile_start)
        = Rejected (text reason)).
Proof.
  intros Hs.
  set (raw := Error_toString err).
  set (reason := if includes raw "Stream exceeded specified max"
                 then "File exceeds max size of " ++ bytes (Some maxBytes)
                 else raw).
  assert (Hat : forall before,
             rf_promise
               (deliver (readFile_on (Some maxBytes))
                  (map stream_data chunks ++ stream_error err :: before)
                  readFile_start)
             = Rejected (text reason)).
  { intros before.
    change (stream_error err :: before)
      with ([stream_error err] ++ before)%list.
    rewrite !deliver_app, readFile_on_data.
    rewrite (deliver_settled (readFile_on (Some maxBytes)) rf_promise).
    - reflexivity.
    - intros s ev. apply readFile_on_settled.
    - reflexivity. }
  exists reason. subst reason raw.
  split; [now intros ->|]. split; [now intros ->|].
  split; [unfold readFile; rewrite Hs; apply Hat|].
  split; [now rewrite readFile_on_data|].
  split; [now rewrite deliver_app, readFile_on_data|].
  intros before after _. apply Hat.
Qed.

(** C10.  A byte limit of zero attaches no limiter: the listeners are on
    the client's stream itself, as when no limit is given (any other
    limit that is a number puts the limiter in between); so with limit
    zero a stream of chunks that finishes fulfils the promise with all
    chunks concatenated, whatever the limiter would have done. *)
Theorem readFile_zero_limit_unbounded (this : HdfsFileSource)
    (file : string) :
  readFile_stream this file (Some (Num 0))
  = Client.createReadStream (client this) file /\
  readFile_stream this file (Some (Num 0)) = readFile_stream this file None /\
  (forall n, number_truthy n = true ->
             readFile_stream this file (Some n)
             = meter n (Client.createReadStream (client this) file)) /\
  (forall chunks later,
      Client.createReadStream (client this) file
      = (map stream_data chunks ++ stream_finish :: later)%list ->
      readFile this file (Some (Num 0)) = Fulfilled (Buffer_concat chunks)).
Proof.
  split; [reflexivity|]. split; [reflexivity|].
  split; [intros n Hn; unfold readFile_stream; now rewrite Hn|].
  intros chunks later Hc. unfold readFile.
  change (readFile_stream this file (Some (Num 0)))
    with (Client.createReadStream (client this) file).
  rewrite Hc.
  change (stream_finish :: later) with ([stream_finish] ++ later)%list.
  rewrite !deliver_app, readFile_on_data.
  rewrite (deliver_settled (readFile_on (Some (Num 0))) rf_promise).
  - reflexivity.
  - intros s ev. apply readFile_on_settled.
  - reflexivity.
Qed.

Lemma writeFile_on_settled (s : WriteFileState) (ev : WriteEvent) :
  settled (wf_promise s) = true ->
  wf_promise (writeFile_on s ev) = wf_promise s.
Proof.
  intros H. destruct ev as [err|location]; cbn.
  - now apply reject_settled.
  - destruct (not_value (wf_error s)); [now apply resolve_settled|reflexivity].
Qed.

Lemma writeFile_first_event (ev : WriteEvent) (later : list WriteEvent) :
  wf_promise (deliver writeFile_on (ev :: later) writeFile_start)
  = match ev with
    | write_error err => Rejected err
    | write_finish location => Fulfilled location
    end.
Proof.
  change (ev :: later) with ([ev] ++ later)%list.
  rewrite deliver_app.
  rewrite (deliver_settled writeFile_on wf_promise).
  - now destruct ev.
  - apply writeFile_on_settled.
  - now destruct ev.
Qed.

(** C4.  [writeFile] is fulfilled with a location only when the first
    event of the write stream is the finish that carries it, so no error
    came before; such a finish does fulfil it.  When an error comes first
    the promise is rejected with that error, and it is rejected with that
    error at every later point of the stream, a finish included. *)
Theorem writeFile_two_phase (this : HdfsFileSource) (localFile : IFile)
    (remoteDirPath : string) :
  (forall location,
      writeFile this localFile remoteDirPath = Fulfilled location ->
      exists later,
        writeFile_stream this localFile remoteDirPath
        = write_finish location :: later) /\
  (forall location later,
      writeFile_stream this localFile remoteDirPath
      = write_finish location :: later ->
      writeFile this localFile remoteDirPath = Fulfilled location) /\
  (forall err later,
      writeFile_stream this localFile remoteDirPath
      = write_error err :: later ->
      writeFile this localFile remoteDirPath = Rejected err /\
      forall before after,
        later = (before ++ after)%list ->
        wf_promise (deliver writeFile_on (write_error err :: before)
                            writeFile_start)
        = Rejected err).
Proof.
  unfold writeFile. repeat split.
  - intros location H.
    destruct (writeFile_stream this localFile remoteDirPath)
      as [|ev later]; [discriminate H|].
    rewrite writeFile_first_event in H.
    destruct ev; [discriminate H|]. injection H as ->. now exists later.
  - intros location later ->. apply writeFile_first_event.
  - rewrite H. apply writeFile_first_event.
  - intros before after _. apply writeFile_first_event.
Qed.

(** ** Reading lines *)

Lemma readFileLines_on_settled (maxLines : number) (s : ReadLinesState)
    (ev : LineEvent) :
  settled (rl_promise s) = true ->
  rl_promise (readFileLines_on maxLines s ev) = rl_promise s.
Proof.
  intros H. destruct ev as [line|err|]; cbn -[geq].
  - destruct (geq (Num (rl_lineCount s + 1)) maxLines); cbn;
      [now apply resolve_settled|reflexivity].
  - now apply reject_settled.
  - destruct (not_string (rl_errorMsg s)); cbn;
      [now apply resolve_settled|reflexivity].
Qed.

(** Once [close()] has been called on the reader it stays called. *)
Lemma readFileLines_on_closed (maxLines : number) (s : ReadLinesState)
    (ev : LineEvent) :
  rl_closed s = true -> rl_closed (readFileLines_on maxLines s ev) = true.
Proof.
  intros H. destruct ev as [line|err|]; cbn -[geq].
  - now destruct (geq (Num (rl_lineCount s + 1)) maxLines).
  - exact H.
  - now destruct (not_string (rl_errorMsg s)).
Qed.

Lemma deliver_closed (maxLines : number) (events : list LineEvent)
    (s : ReadLinesState) :
  rl_closed s = true ->
  rl_closed (deliver (readFileLines_on maxLines) events s) = true.
Proof.
  revert s. unfold deliver.
  induction events as [|ev events IH]; intros s H; cbn [fold_left]; auto.
  apply IH. now apply readFileLines_on_closed.
Qed.

(** Lines below the limit are counted and collected, nothing else. *)
Lemma readFileLines_on_lines (n : Z) (lines : list string)
    (s : ReadLinesState) :
  (rl_lineCount s + Z.of_nat (List.length lines) < n)%Z ->
  deliver (readFileLines_on (Num n)) (map reader_line lines) s
  = {| rl_lineCount := rl_lineCount s + Z.of_nat (List.length lines);
       rl_lineData := (rl_lineData s ++ lines)%list;
       rl_errorMsg := rl_errorMsg s;
       rl_closed := rl_closed s;
       rl_promise := rl_promise s |}.
Proof.
  revert s. unfold deliver.
  induction lines as [|line lines IH]; intros s H.
  - cbn. rewrite app_nil_r, Z.add_0_r. now destruct s.
  - cbn [map fold_left readFileLines_on geq List.length] in *.
    replace (n <=? rl_lineCount s + 1)%Z with false
      by (symmetry; apply Z.leb_gt; lia).
    rewrite IH; cbn; [|lia].
    rewrite <- app_assoc. f_equal. lia.
Qed.

(** C3, for a limit of at least one line.  When the reader delivers
    [maxLines] lines before anything else, the promise is pending and the
    reader open until the last of them; at that line the promise is
    fulfilled with exactly these lines joined by the line terminator and
    the reader is closed; whatever the reader delivers afterwards, the
    promise keeps that value and the reader stays closed. *)
Theorem readFileLines_stops_at_maxLines (this : HdfsFileSource)
    (file : string) (n : Z) (lines : list string)
    (later : list LineEvent) :
  (1 <= n)%Z ->
  Z.of_nat (List.length lines) = n ->
  readFileLines_reader this file = (map reader_line lines ++ later)%list ->
  readFileLines this file (Num n)
  = Fulfilled (Buffer_from (join EOL lines)) /\
  rl_closed (readFileLines_run this file (Num n)) = true /\
  (forall k, (k < List.length lines)%nat ->
     rl_promise (deliver (readFileLines_on (Num n))
                   (map reader_line (firstn k lines)) readFileLines_start)
     = Pending /\
     rl_closed (deliver (readFileLines_on (Num n))
                  (map reader_line (firstn k lines)) readFileLines_start)
     = false) /\
  rl_promise (deliver (readFileLines_on (Num n))
                (map reader_line lines) readFileLines_start)
  = Fulfilled (Buffer_from (join EOL lines)) /\
  rl_closed (deliver (readFileLines_on (Num n))
               (map reader_line lines) readFileLines_start) = true.
Proof.
  intros Hn Hlen Hr.
  assert (Hat : rl_promise (deliver (readFileLines_on (Num n))
                              (map reader_line lines) readFileLines_start)
                = Fulfilled (Buffer_from (join EOL lines)) /\
                rl_closed (deliver (readFileLines_on (Num n))
                             (map reader_line lines) readFileLines_start)
                = true).
  { destruct (exists_last (l := lines)) as (front & last & E).
    { intros ->. cbn in Hlen. lia. }
    subst lines. rewrite length_app in Hlen. cbn in Hlen.
    rewrite map_app, deliver_app.
    rewrite (readFileLines_on_lines n front) by (cbn; lia).
    cbn. replace (n <=? Z.of_nat (List.length front) + 1)%Z with true
      by (symmetry; apply Z.leb_le; lia).
    now split. }
  destruct Hat as [Hp Hc].
  split.
  { unfold readFileLines, readFileLines_run. rewrite Hr, deliver_app.
    rewrite (deliver_settled (readFileLines_on (Num n)) rl_promise).
    - exact Hp.
    - intros s ev. apply readFileLines_on_settled.
    - now rewrite Hp. }
  split.
  { unfold readFileLines_run. rewrite Hr, deliver_app.
    now apply deliver_closed. }
  split; [|now split].
  intros k Hk.
  rewrite readFileLines_on_lines.
  - now split.
  - cbn. rewrite length_firstn. lia.
Qed.

(** C6.  When the reader closes after fewer than [maxLines] lines and
    without an error, the promise is fulfilled with the lines read, joined
    by the line terminator: the empty text for no line, the line itself
    for a single line. *)
Theorem readFileLines_natural_close (this : HdfsFileSource) (file : string)
    (n : Z) (lines : list string) (later : list LineEvent) :
  (Z.of_nat (List.length lines) < n)%Z ->
  readFileLines_reader this file
  = (map reader_line lines ++ reader_close :: later)%list ->
  readFileLines this file (Num n)
  = Fulfilled (Buffer_from (join EOL lines)) /\
  (lines = [] -> readFileLines this file (Num n) = Fulfilled EmptyString) /\
  (forall line, lines = [line] ->
                readFileLines this file (Num n) = Fulfilled line).
Proof.
  intros Hlen Hr.
  assert (H : readFileLines this file (Num n)
              = Fulfilled (Buffer_from (join EOL lines))).
  { unfold readFileLines, readFileLines_run. rewrite Hr.
    change (reader_close :: later) with ([reader_close] ++ later)%list.
    rewrite !deliver_app, readFileLines_on_lines by (cbn; lia).
    rewrite (deliver_settled (readFileLines_on (Num n)) rl_promise).
    - reflexivity.
    - intros s ev. apply readFileLines_on_settled.
    - reflexivity. }
  split; [exact H|]. split.
  - intros ->. exact H.
  - intros line ->. exact H.
Qed.

(** ** Further properties: paths and files *)

Lemma append_cancel_l (p a b : string) : p ++ a = p ++ b -> a = b.
Proof.
  induction p as [|c p IH]; cbn; [auto|].
  intros H. injection H as H. auto.
Qed.

Lemma joinHdfsPath_injective (parent child other : string) :
  joinHdfsPath parent child = joinHdfsPath parent other -> child = other.
Proof.
  unfold joinHdfsPath. destruct (parent =? hdfsRootPath)%string; intros H.
  - now injection H.
  - apply append_cancel_l in H. now injection H.
Qed.

(** A joined path is never empty, ends with a separator followed by the
    child, and two children of one parent have the same path only when they
    have the same name. *)
Theorem joinHdfsPath_child_determined (parent child other : string) :
  joinHdfsPath parent child <> EmptyString /\
  (exists front, joinHdfsPath parent child = front ++ "/" ++ child) /\
  (joinHdfsPath parent child = joinHdfsPath parent other -> child = other).
Proof.
  split; [|split; [|apply joinHdfsPath_injective]];
    unfold joinHdfsPath; destruct (parent =? hdfsRootPath)%string.
  - discriminate.
  - destruct parent; discriminate.
  - now exists EmptyString.
  - now exists parent.
Qed.

Lemma joinHdfsPath_not_slash (parent name : string) :
  name <> EmptyString -> joinHdfsPath parent name <> "/".
Proof.
  intros Hname. unfold joinHdfsPath.
  destruct (parent =? hdfsRootPath)%string.
  - intros H. injection H as H. contradiction.
  - destruct parent as [|c parent]; cbn.
    + intros H. injection H as H. contradiction.
    + intros H. injection H as _ H. destruct parent; discriminate H.
Qed.

(** With ["/"] as the root sentinel, a file created in a directory that was
    itself created under a parent lies two segments below that parent, with
    single separators, also when the parent is the root; the directory is
    flagged as one and the file is not.  The name of the directory must not
    be empty. *)
Theorem createFile_in_createDirectory (parent : IFile)
    (dirName fileName : string) :
  hdfsRootPath = "/" ->
  dirName <> EmptyString ->
  path (createFile (createDirectory parent dirName) fileName)
  = (if (path parent =? "/")%string then EmptyString else path parent)
      ++ "/" ++ dirName ++ "/" ++ fileName /\
  isDirectory (createDirectory parent dirName) = true /\
  isDirectory (createFile (createDirectory parent dirName) fileName) = false.
Proof.
  intros Hroot Hname. split; [|now split].
  pose proof (joinHdfsPath_not_slash (path parent) dirName Hname) as Hns.
  cbn. unfold createPath.
  unfold joinHdfsPath at 1.
  rewrite Hroot in *.
  apply String.eqb_neq in Hns. rewrite Hns.
  unfold joinHdfsPath. rewrite Hroot.
  destruct (path parent =? "/")%string; cbn; [reflexivity|].
  now rewrite !append_assoc.
Qed.

Lemma createPath_NoDup (dir : string) (files : list IHdfsFileStatus) :
  NoDup (map pathSuffix files) ->
  NoDup (map (fun entry => createPath dir (pathSuffix entry)) files).
Proof.
  induction files as [|entry files IH]; cbn; intros Hnd; [constructor|].
  inversion Hnd as [|x xs Hnotin Hrest]; subst.
  constructor; [|now apply IH].
  intros Hin. apply Hnotin.
  apply in_map_iff in Hin as (entry' & Heq & Hin').
  apply in_map_iff. exists entry'. split; [|exact Hin'].
  now apply joinHdfsPath_injective in Heq.
Qed.

(** Distinct entries of a listing give distinct files: when no path suffix
    occurs twice, no path occurs twice in the result. *)
Theorem enumerateFiles_distinct_paths (this : HdfsFileSource) (dir : string)
    (files : list IHdfsFileStatus)
    (later : list (option Error * list IHdfsFileStatus)) :
  Client.readdir (client this) dir = (None, files) :: later ->
  NoDup (map pathSuffix files) ->
  exists hdfsFiles : list IFile,
    enumerateFiles this dir = Fulfilled hdfsFiles /\
    NoDup (map path hdfsFiles).
Proof.
  intros Hc Hnd. unfold enumerateFiles. rewrite Hc.
  eexists. split.
  - change ((None, files) :: later) with ([(None, files)] ++ later)%list.
    rewrite deliver_app.
    rewrite (deliver_settled (enumerateFiles_callback dir) (fun p => p)).
    + reflexivity.
    + intros s ev. apply enumerateFiles_callback_settled.
    + reflexivity.
  - rewrite map_map. cbn [path]. now apply createPath_NoDup.
Qed.

(** ** Further properties: the factory *)

Lemma setHostAndPort_keeps (options options' : IHdfsOptions)
    (delimeter : string) :
  setHostAndPort options delimeter = Some options' ->
  protocol options' = protocol options /\ user options' = user options /\
  options_path options' = options_path options /\
  requestParams options' = requestParams options.
Proof.
  unfold setHostAndPort. destruct (host options) as [h|]; [|discriminate].
  destruct (-1 <? indexOf h delimeter)%Z; intros H; injection H as <-;
    now repeat split.
Qed.

(** Normalization cuts the host at its first delimiter of either kind. *)
Lemma removePortFromHost_cut (options : IHdfsOptions) (h : string) :
  host options = Some h ->
  exists (normalized : IHdfsOptions) (kept cut : string),
    removePortFromHost options = Some normalized /\
    host normalized = Some kept /\
    h = kept ++ cut /\
    indexOf kept "," = (-1)%Z /\ indexOf kept ":" = (-1)%Z /\
    ((cut = EmptyString /\ normalized = options) \/
     (exists rest, cut = String "," rest) \/
     (exists rest, cut = String ":" rest)) /\
    protocol normalized = protocol options /\
    user normalized = user options /\
    options_path normalized = options_path options /\
    requestParams normalized = requestParams options.
Proof.
  intros Hh. unfold removePortFromHost.
  destruct (indexOf_unit_split "," h) as [Hn | (a & b & E & Ha & _)].
  - rewrite (setHostAndPort_absent _ _ _ Hh Hn).
    destruct (indexOf_unit_split ":" h) as [Hk | (c & d & E & Hc & _)].
    + rewrite (setHostAndPort_absent _ _ _ Hh Hk).
      exists options, h, EmptyString. repeat split; auto.
      clear. induction h as [|x h IH]; cbn; [reflexivity | now rewrite <- IH].
    + subst h. rewrite (setHostAndPort_found _ _ _ _ Hh Hc).
      exists (set_port (parseInt d) (set_host c options)), c, (String ":" d).
      repeat split; eauto.
      now apply indexOf_unit_prefix with (b := String ":" d).
  - subst h. rewrite (setHostAndPort_found _ _ _ _ Hh Ha).
    set (o1 := set_port (parseInt b) (set_host a options)).
    assert (Hh1 : host o1 = Some a) by reflexivity.
    destruct (indexOf_unit_split ":" a) as [Hk | (c & d & E & Hc & _)].
    + rewrite (setHostAndPort_absent _ _ _ Hh1 Hk).
      exists o1, a, (String "," b). repeat split; eauto.
    + subst a. rewrite (setHostAndPort_found _ _ _ _ Hh1 Hc).
      exists (set_port (parseInt d) (set_host c o1)), c,
             (String ":" (d ++ String "," b)).
      repeat split; eauto.
      * change (String ":" (d ++ String "," b))
          with (String ":" d ++ String "," b).
        now rewrite <- append_assoc.
      * now apply indexOf_unit_prefix with (b := String ":" d).
Qed.

(** The normalized host is the given host up to its first comma or colon,
    whichever comes first, so the order of the two splits does not show in
    it; a host with neither delimiter leaves the options, the port among
    them, exactly as given. *)
Theorem removePortFromHost_first_delimiter (options : IHdfsOptions)
    (h : string) :
  host options = Some h ->
  exists (normalized : IHdfsOptions) (kept cut : string),
    removePortFromHost options = Some normalized /\
    host normalized = Some kept /\
    h = kept ++ cut /\
    includes kept "," = false /\ includes kept ":" = false /\
    (cut = EmptyString \/ (exists rest, cut = "," ++ rest) \/
     (exists rest, cut = ":" ++ rest)) /\
    (includes h "," = false -> includes h ":" = false ->
     normalized = options).
Proof.
  intros Hh.
  destruct (removePortFromHost_cut options h Hh)
    as (normalized & kept & cut & R & Hk & E & Hc & Hl & Hcut & _).
  exists normalized, kept, cut.
  split; [exact R|]. split; [exact Hk|]. split; [exact E|].
  split; [now apply includes_false|]. split; [now apply includes_false|].
  split.
  - destruct Hcut as [[-> _] | [[rest ->] | [rest ->]]];
      [now left | right; left; now exists rest
      | right; right; now exists rest].
  - intros Hnc Hnl.
    destruct Hcut as [[_ ->] | [[rest ->] | [rest ->]]]; [reflexivity| |].
    + exfalso. apply includes_false in Hnc.
      apply (proj2 (indexOf_found h ",")); [|exact Hnc].
      exists kept, rest. now rewrite E.
    + exfalso. apply includes_false in Hnl.
      apply (proj2 (indexOf_found h ":")); [|exact Hnl].
      exists kept, rest. now rewrite E.
Qed.

(** Normalizing options that have been normalized changes nothing. *)
Theorem removePortFromHost_idempotent (options normalized : IHdfsOptions) :
  removePortFromHost options = Some normalized ->
  removePortFromHost normalized = Some normalized.
Proof.
  intros R.
  destruct (host options) as [h|] eqn:Hh.
  - destruct (removePortFromHost_cut options h Hh)
      as (normalized' & kept & cut & R' & Hk & _ & Hc & Hl & _).
    rewrite R in R'. injection R' as <-.
    unfold removePortFromHost.
    rewrite (setHostAndPort_absent _ _ _ Hk Hc).
    apply (setHostAndPort_absent _ _ _ Hk Hl).
  - unfold removePortFromHost, setHostAndPort in R. rewrite Hh in R.
    discriminate R.
Qed.

(** Which port wins.  When a colon comes before the first comma, the port
    is parsed from the text between that colon and that comma, and the text
    after the comma is dropped.  When the first comma comes before any
    colon, the port is parsed from all the text after that comma. *)
Theorem removePortFromHost_port_precedence (options : IHdfsOptions)
    (name between rest : string) :
  includes name "," = false -> includes name ":" = false ->
  (host options = Some (name ++ ":" ++ between ++ "," ++ rest) ->
   includes between "," = false ->
   exists normalized,
     removePortFromHost options = Some normalized /\
     host normalized = Some name /\
     port normalized = Some (parseInt between)) /\
  (host options = Some (name ++ "," ++ rest) ->
   exists normalized,
     removePortFromHost options = Some normalized /\
     host normalized = Some name /\
     port normalized = Some (parseInt rest)).
Proof.
  intros Hnc Hnl. apply includes_false in Hnc. apply includes_false in Hnl.
  split.
  - intros Hh Hb. apply includes_false in Hb.
    unfold removePortFromHost.
    assert (Hfront : indexOf (name ++ ":" ++ between) "," = (-1)%Z).
    { clear - Hnc Hb.
      induction name as [|x name IH]; cbn [append indexOf startsWith] in *.
      - cbn. now rewrite Hb.
      - destruct (Ascii.eqb "," x); cbn [andb] in *; [discriminate|].
        pose proof (indexOf_lower name ",").
        destruct (indexOf name "," <? 0)%Z eqn:L; [|lia].
        apply Z.ltb_lt in L. now rewrite IH by lia. }
    replace (name ++ ":" ++ between ++ "," ++ rest)
      with ((name ++ ":" ++ between) ++ String "," rest) in Hh
      by (now rewrite !append_assoc).
    rewrite (setHostAndPort_found _ _ _ _ Hh Hfront).
    eexists. split.
    + apply setHostAndPort_found with (c := ":"%char); [reflexivity|exact Hnl].
    + now split.
  - intros Hh. unfold removePortFromHost.
    rewrite (setHostAndPort_found options "," name rest Hh Hnc).
    eexists. split.
    + apply setHostAndPort_absent with (h := name); [reflexivity|exact Hnl].
    + now split.
Qed.

(** The factory fails only for a missing argument.  Called without
    options it throws, at the read of [options.requestParams].  For every
    options object it builds a file source: the host normalization cannot
    fail, since a host that is missing or empty is not normalized - then
    host and port reach the client as given; protocol, user and path always
    do. *)
Theorem createHdfsFileSource_needs_options :
  createHdfsFileSource_call None = None /\
  forall options : IHdfsOptions,
  exists (options' : IHdfsOptions) (requestParams' : IRequestParams),
    createClientArguments options = Some (options', requestParams') /\
    createHdfsFileSource_call (Some options)
    = Some (mkHdfsFileSource (webhdfs_createClient options' requestParams')) /\
    (host_truthy options = false ->
     host options' = host options /\ port options' = port options) /\
    protocol options' = protocol options /\
    user options' = user options /\
    options_path options' = options_path options.
Proof.
  split; [reflexivity|]. intros options.
  assert (N : exists normalized,
             (if host_truthy options then removePortFromHost options
              else Some options) = Some normalized /\
             (host_truthy options = false -> normalized = options) /\
             protocol normalized = protocol options /\
             user normalized = user options /\
             options_path normalized = options_path options).
  { destruct (host_truthy options) eqn:Ht.
    - unfold host_truthy in Ht. destruct (host options) as [h|] eqn:Hh;
        [|discriminate].
      destruct (removePortFromHost_cut options h Hh)
        as (normalized & kept & cut & R & _ & _ & _ & _ & _ & P & U & O & _).
      exists normalized. repeat split; auto. discriminate.
    - exists options. now repeat split. }
  destruct N as (normalized & Hn & Hsame & P & U & O).
  unfold createHdfsFileSource_call, createHdfsFileSource,
    createClientArguments. rewrite Hn.
  destruct (requestParams normalized) as [rp|];
    cbn [auth empty_requestParams].
  - destruct (auth rp); eexists _, _; (split; [reflexivity|]);
      (split; [reflexivity|]); cbn; (split; [|now repeat split]);
      intros Hf; now rewrite (Hsame Hf).
  - eexists _, _; (split; [reflexivity|]); (split; [reflexivity|]);
      (split; [|now repeat split]); intros Hf; now rewrite (Hsame Hf).
Qed.

(** With credentials in the request parameters, the parameters handed to
    the client carry an agent for the normalized host and port and the root
    path that does not reject unauthorized certificates; credentials and
    timeout are kept, and the options handed to the client hold these same
    parameters.  Without credentials no agent is made: the parameters are
    the given ones, or empty ones when none were given. *)
Theorem createClientArguments_agent (options options' : IHdfsOptions)
    (requestParams' : IRequestParams) :
  createClientArguments options = Some (options', requestParams') ->
  (forall given credentials,
      requestParams options = Some given ->
      auth given = Some credentials ->
      agent requestParams'
      = Some {| agent_host := host options'; agent_port := port options';
                agent_path := hdfsRootPath; rejectUnauthorized := false |} /\
      auth requestParams' = Some credentials /\
      timeout requestParams' = timeout given /\
      requestParams options' = Some requestParams') /\
  (forall given,
      requestParams options = Some given ->
      auth given = None ->
      requestParams' = given /\ requestParams options' = Some given) /\
  (requestParams options = None ->
   requestParams' = empty_requestParams /\ requestParams options' = None).
Proof.
  unfold createClientArguments.
  assert (N : exists normalized,
             (if host_truthy options then removePortFromHost options
              else Some options) = Some normalized /\
             requestParams normalized = requestParams options).
  { destruct (host_truthy options) eqn:Ht.
    - unfold host_truthy in Ht. destruct (host options) as [h|] eqn:Hh;
        [|discriminate].
      destruct (removePortFromHost_cut options h Hh)
        as (normalized & kept & cut & R & _ & _ & _ & _ & _ & _ & _ & _ & Q).
      now exists normalized.
    - now exists options. }
  destruct N as (normalized & -> & Q). rewrite Q.
  destruct (requestParams options) as [rp|]; cbn [auth empty_requestParams].
  - destruct (auth rp) as [cred|] eqn:Ha; intros H; injection H as <- <-.
    + split; [|split].
      * intros given credentials Hg Hc. injection Hg as <-.
        rewrite Ha in Hc. injection Hc as <-. now repeat split.
      * intros given Hg Hc. injection Hg as <-. congruence.
      * discriminate.
    + split; [|split].
      * intros given credentials Hg Hc. injection Hg as <-. congruence.
      * intros given Hg _. injection Hg as <-. now split.
      * discriminate.
  - intros H; injection H as <- <-. split; [|split].
    + discriminate.
    + discriminate.
    + intros _. now split.
Qed.

(** ** Further properties: the operations *)

(** [mkdir] asks the client for the joined path and [delete] for the given
    one; each is fulfilled as soon as the first answer of the client carries
    no error or a falsy one, and later answers change nothing. *)
Theorem mkdir_delete_succeed (this : HdfsFileSource) :
  (forall dirName remoteBasePath err later,
      Client.mkdir (client this) (joinHdfsPath remoteBasePath dirName)
      = err :: later ->
      truthy err = false ->
      mkdir this dirName remoteBasePath = Fulfilled tt) /\
  (forall file recursive err later,
      Client.rmdir (client this) file
                   (match recursive with Some b => b | None => false end)
      = err :: later ->
      truthy err = false ->
      delete this file recursive = Fulfilled tt).
Proof.
  split.
  - intros dirName remoteBasePath err later Hc Hf. unfold mkdir.
    rewrite Hc. change (err :: later) with ([err] ++ later)%list.
    rewrite deliver_app.
    rewrite (deliver_settled void_callback (fun p => p)).
    + cbn. unfold void_callback. now rewrite Hf.
    + intros s ev. apply void_callback_settled.
    + cbn. unfold void_callback. now rewrite Hf.
  - intros file recursive err later Hc Hf. unfold delete.
    rewrite Hc. change (err :: later) with ([err] ++ later)%list.
    rewrite deliver_app.
    rewrite (deliver_settled void_callback (fun p => p)).
    + cbn. unfold void_callback. now rewrite Hf.
    + intros s ev. apply void_callback_settled.
    + cbn. unfold void_callback. now rewrite Hf.
Qed.

(** Every stream is data events up to its first event of another kind. *)
Lemma stream_first_other (events : list StreamEvent) :
  (exists chunks, events = map stream_data chunks) \/
  (exists chunks ev later,
      events = (map stream_data chunks ++ ev :: later)%list /\
      is_data ev = false).
Proof.
  induction events as [|ev events IH].
  - left. now exists [].
  - destruct ev as [err|chunk|].
    + right. now exists [], (stream_error err), events.
    + destruct IH as [[chunks ->] | (chunks & ev & later & -> & Hev)].
      * left. now exists (chunk :: chunks).
      * right. now exists (chunk :: chunks), ev, later.
    + right. now exists [], stream_finish, events.
Qed.

Lemma forallb_is_data_map (chunks : list string) :
  forallb is_data (map stream_data chunks) = true.
Proof. induction chunks; cbn; auto. Qed.

(** The outcome of delivering a stream whose first event that is not data
    is known. *)
Lemma readFile_first_other (maxBytes : option number)
    (chunks : list string) (ev : StreamEvent) (later : list StreamEvent) :
  is_data ev = false ->
  settled (rf_promise (deliver (readFile_on maxBytes)
                         (map stream_data chunks ++ ev :: later)
                         readFile_start)) = true /\
  (ev = stream_finish ->
   rf_promise (deliver (readFile_on maxBytes)
                 (map stream_data chunks ++ ev :: later) readFile_start)
   = Fulfilled (Buffer_concat chunks)).
Proof.
  intros Hev.
  change (ev :: later) with ([ev] ++ later)%list.
  rewrite !deliver_app, readFile_on_data.
  rewrite (deliver_settled (readFile_on maxBytes) rf_promise).
  - destruct ev; [now split | discriminate Hev | now split].
  - intros s e. apply readFile_on_settled.
  - now destruct ev.
Qed.

(** [readFile], with or without a byte limit: when the stream the listeners
    are attached to delivers chunks and then finishes, the promise is
    fulfilled with these chunks concatenated in the order they arrived, and
    nothing the stream delivers after the finish is added. *)
Theorem readFile_resolves_in_order (this : HdfsFileSource) (file : string)
    (maxBytes : option number) (chunks : list string)
    (later : list StreamEvent) :
  readFile_stream this file maxBytes
  = (map stream_data chunks ++ stream_finish :: later)%list ->
  readFile this file maxBytes = Fulfilled (Buffer_concat chunks).
Proof.
  intros Hs. unfold readFile. rewrite Hs.
  now apply readFile_first_other.
Qed.

(** [readFile] is pending exactly when the stream delivers nothing but
    data: without a finish or an error the promise never settles, and the
    first finish or error settles it. *)
Theorem readFile_pending_iff_only_data (this : HdfsFileSource)
    (file : string) (maxBytes : option number) :
  readFile this file maxBytes = Pending <->
  forallb is_data (readFile_stream this file maxBytes) = true.
Proof.
  unfold readFile.
  destruct (stream_first_other (readFile_stream this file maxBytes))
    as [[chunks ->] | (chunks & ev & later & -> & Hev)].
  - rewrite readFile_on_data, forallb_is_data_map. now split.
  - destruct (readFile_first_other maxBytes chunks ev later Hev) as [Hs _].
    rewrite forallb_app. cbn [forallb]. rewrite Hev, andb_false_r.
    split; [|discriminate].
    intros Hp. rewrite Hp in Hs. discriminate Hs.
Qed.

(** [readFileLines]: an error of the reader that comes before the limit is
    reached rejects the promise with the message text of the error; the
    lines read so far are not delivered, and a close that follows does not
    fulfil the promise. *)
Theorem readFileLines_error_rejects (this : HdfsFileSource) (file : string)
    (n : Z) (lines : list string) (err : Error) (later : list LineEvent) :
  (Z.of_nat (List.length lines) < n)%Z ->
  readFileLines_reader this file
  = (map reader_line lines ++ reader_error err :: later)%list ->
  readFileLines this file (Num n) = Rejected (text (getErrorMessage err)).
Proof.
  intros Hlen Hr. unfold readFileLines, readFileLines_run. rewrite Hr.
  change (reader_error err :: later)
    with ([reader_error err] ++ later)%list.
  rewrite !deliver_app, readFileLines_on_lines by (cbn; lia).
  rewrite (deliver_settled (readFileLines_on (Num n)) rl_promise).
  - reflexivity.
  - intros s ev. apply readFileLines_on_settled.
  - reflexivity.
Qed.

Lemma readFileLines_invariant_start (n : Z) :
  readFileLines_invariant n [] readFileLines_start.
Proof.
  repeat split; cbn; auto; discriminate.
Qed.

Lemma readFileLines_invariant_step (n : Z) (seen : list string)
    (s : ReadLinesState) (ev : LineEvent) :
  readFileLines_invariant n seen s ->
  readFileLines_invariant n (seen ++ lines_of [ev])%list
                          (readFileLines_on (Num n) s ev).
Proof.
  intros (Hdata & Hcount & Hpending & Hfulfilled).
  assert (Hkeep : forall v, rl_promise s = Fulfilled v ->
             forall extra,
             exists first rest,
               (seen ++ extra)%list = (first ++ rest)%list /\
               v = Buffer_from (join EOL first) /\
               (Z.of_nat (List.length first) <= Z.max 1 n)%Z).
  { intros v Hv extra.
    destruct (Hfulfilled v Hv) as (first & rest & -> & E & L).
    exists first, (rest ++ extra)%list. now rewrite app_assoc. }
  destruct ev as [line|err|]; cbn [lines_of flat_map app].
  - cbn [readFileLines_on geq].
    assert (Hc : (rl_lineCount s + 1)%Z
                 = Z.of_nat (List.length (seen ++ [line])%list)).
    { rewrite length_app. cbn. lia. }
    destruct (n <=? rl_lineCount s + 1)%Z eqn:Hreach.
    + apply Z.leb_le in Hreach.
      split; [cbn; now rewrite Hdata|]. split; [exact Hc|].
      cbn [rl_promise rl_lineCount]. split.
      * destruct (rl_promise s); discriminate.
      * intros v Hv. destruct (rl_promise s) eqn:Hp; cbn in Hv.
        -- injection Hv as <-. exists (seen ++ [line])%list, [].
           rewrite app_nil_r, Hdata. split; [reflexivity|].
           split; [reflexivity|].
           rewrite <- Hc. destruct (Hpending eq_refl); lia.
        -- now apply Hkeep.
        -- discriminate Hv.
    + apply Z.leb_gt in Hreach.
      split; [cbn; now rewrite Hdata|]. split; [exact Hc|].
      cbn [rl_promise rl_lineCount]. split.
      * intros _. now left.
      * intros v Hv. now apply Hkeep.
  - rewrite app_nil_r. cbn.
    split; [exact Hdata|]. split; [exact Hcount|]. split.
    + destruct (rl_promise s); discriminate.
    + intros v Hv. destruct (rl_promise s) eqn:Hp; cbn in Hv; try discriminate.
      rewrite <- (app_nil_r seen). now apply Hkeep.
  - rewrite app_nil_r. cbn [readFileLines_on].
    destruct (not_string (rl_errorMsg s)); [|now repeat split].
    cbn. split; [exact Hdata|]. split; [exact Hcount|]. split.
    + destruct (rl_promise s); discriminate.
    + intros v Hv. destruct (rl_promise s) eqn:Hp; cbn in Hv.
      * injection Hv as <-. exists seen, []. rewrite app_nil_r, Hdata.
        split; [reflexivity|]. split; [reflexivity|].
        rewrite <- Hcount. destruct (Hpending eq_refl); lia.
      * rewrite <- (app_nil_r seen). now apply Hkeep.
      * discriminate Hv.
Qed.

Lemma lines_of_app (before after : list LineEvent) :
  lines_of (before ++ after)%list = (lines_of before ++ lines_of after)%list.
Proof. apply flat_map_app. Qed.

Lemma readFileLines_invariant_deliver (n : Z) (events : list LineEvent) :
  readFileLines_invariant n (lines_of events)
    (deliver (readFileLines_on (Num n)) events readFileLines_start).
Proof.
  induction events as [|ev events IH] using rev_ind.
  - apply readFileLines_invariant_start.
  - rewrite deliver_app, lines_of_app.
    now apply readFileLines_invariant_step.
Qed.

(** [readFileLines] never delivers more than it was asked for.  Whatever
    the reader does - lines after the limit, events after a close, several
    closes - a fulfilled promise holds the first lines of the reader joined
    by the line terminator, at most [maxLines] of them (at most one when
    [maxLines] is below one). *)
Theorem readFileLines_at_most_maxLines (this : HdfsFileSource)
    (file : string) (n : Z) (v : string) :
  readFileLines this file (Num n) = Fulfilled v ->
  exists first rest : list string,
    lines_of (readFileLines_reader this file) = (first ++ rest)%list /\
    v = Buffer_from (join EOL first) /\
    (Z.of_nat (List.length first) <= Z.max 1 n)%Z.
Proof.
  intros Hv.
  destruct (readFileLines_invariant_deliver n (readFileLines_reader this file))
    as (_ & _ & _ & Hfulfilled).
  now apply Hfulfilled.
Qed.

Lemma readFileLines_on_lines_NaN (lines : list string) (s : ReadLinesState) :
  deliver (readFileLines_on NaN) (map reader_line lines) s
  = {| rl_lineCount := rl_lineCount s + Z.of_nat (List.length lines);
       rl_lineData := (rl_lineData s ++ lines)%list;
       rl_errorMsg := rl_errorMsg s;
       rl_closed := rl_closed s;
       rl_promise := rl_promise s |}.
Proof.
  revert s. unfold deliver.
  induction lines as [|line lines IH]; intros s.
  - cbn. rewrite app_nil_r, Z.add_0_r. now destruct s.
  - cbn [map fold_left readFileLines_on geq List.length].
    rewrite IH; cbn. rewrite <- app_assoc. f_equal. lia.
Qed.

(** A line limit that is not a number never stops the reader: however many
    lines come before the close, the promise is fulfilled with all of them
    and [close()] is not called on the reader. *)
Theorem readFileLines_NaN_reads_all (this : HdfsFileSource) (file : string)
    (lines : list string) (later : list LineEvent) :
  readFileLines_reader this file
  = (map reader_line lines ++ reader_close :: later)%list ->
  readFileLines this file NaN = Fulfilled (Buffer_from (join EOL lines)) /\
  rl_closed (deliver (readFileLines_on NaN)
               (map reader_line lines ++ [reader_close])
               readFileLines_start) = false.
Proof.
  intros Hr. split.
  - unfold readFileLines, readFileLines_run. rewrite Hr.
    change (reader_close :: later) with ([reader_close] ++ later)%list.
    rewrite !deliver_app, readFileLines_on_lines_NaN.
    rewrite (deliver_settled (readFileLines_on NaN) rl_promise).
    + reflexivity.
    + intros s ev. apply readFileLines_on_settled.
    + reflexivity.
  - now rewrite deliver_app, readFileLines_on_lines_NaN.
Qed.

(** ** Errors of the client's stream under a byte limit *)

Lemma filter_data_then_error (chunks : list string) (err : Error) :
  filter (fun ev =>
            match ev with
            | stream_error _ => false
            | _ => true
            end)
         (map stream_data chunks ++ [stream_error err])%list
  = map stream_data chunks.
Proof.
  induction chunks as [|chunk chunks IH]; cbn; [reflexivity|].
  now rewrite IH.
Qed.

Lemma only_data_pending (maxBytes : option number)
    (events : list StreamEvent) :
  forallb is_data events = true ->
  rf_promise (deliver (readFile_on maxBytes) events readFile_start) = Pending.
Proof.
  intros Hall.
  destruct (stream_first_other events)
    as [[chunks ->] | (chunks & ev & later & -> & Hev)].
  - now rewrite readFile_on_data.
  - rewrite forallb_app in Hall. cbn [forallb] in Hall.
    rewrite Hev, andb_false_r in Hall. discriminate Hall.
Qed.

(** An error whose text is empty is stored as the empty text: the promise
    is rejected, and the test [!error] of the finish listener still holds,
    so that the listener goes on to call [resolve]. *)
Lemma readFile_empty_error_text_unguarded (maxBytes : option number)
    (chunks : list string) :
  rf_promise (deliver (readFile_on maxBytes)
                (map stream_data chunks
                 ++ [stream_error (mkError EmptyString EmptyString)])
                readFile_start)
  = Rejected (text EmptyString) /\
  not_string
    (rf_error (deliver (readFile_on maxBytes)
                 (map stream_data chunks
                  ++ [stream_error (mkError EmptyString EmptyString)])
                 readFile_start))
  = true.
Proof.
  now rewrite deliver_app, readFile_on_data.
Qed.

(** C2, where the code departs from it.  With a byte limit that is not zero
    the listeners are on the stream that [pipe] returns, and [pipe] passes
    no error of the client's stream on.  So when the client's stream fails,
    after chunks that the limiter lets through or at once, the promise is
    not rejected with the text of the error: it stays pending and never
    settles.  The same call without a limit, where the listeners are on the
    client's stream itself, is rejected with that text. *)
Theorem readFile_limit_loses_client_error (this : HdfsFileSource)
    (file : string) (n : number)
    (limiter : list StreamEvent -> list StreamEvent)
    (chunks : list string) (err : Error) :
  number_truthy n = true ->
  (forall source, meter n source = pipe source limiter) ->
  forallb is_data (limiter (map stream_data chunks)) = true ->
  Client.createReadStream (client this) file
  = (map stream_data chunks ++ [stream_error err])%list ->
  includes (Error_toString err) "Stream exceeded specified max" = false ->
  readFile this file (Some n) = Pending /\
  readFile this file None = Rejected (text (Error_toString err)).
Proof.
  intros Hn Hpipe Hlimiter Hc Hother. split.
  - unfold readFile, readFile_stream. rewrite Hn, Hc, Hpipe.
    unfold pipe. rewrite filter_data_then_error.
    now apply only_data_pending.
  - unfold readFile, readFile_stream. rewrite Hc.
    rewrite deliver_app, readFile_on_data. cbn. now rewrite Hother.
Qed.

End HdfsFileSource.

(** ** The module on the scripted collaborator *)

Lemma removePortFromHost_normalizes_witness :
  host Sample.options = Some "node:8020,50070" /\
  exists normalized,
    removePortFromHost Sample.parseInt Sample.options = Some normalized /\
    host normalized = Some "node" /\ port normalized = Some (Num 8020).
Proof.
  split; [reflexivity|].
  destruct (removePortFromHost_normalizes "/" Sample.parseInt Sample.options
              "node:8020,50070" eq_refl eq_refl)
    as (afterComma & normalized & _ & _ & R & _).
  exists normalized. split; [exact R|].
  vm_compute in R. injection R as <-. split; reflexivity.
Defined.

Lemma readFile_error_settles_once_witness :
  readFile_stream Sample.meter (mkHdfsFileSource Sample.hdfs) "/big"
                  (Some (Num 10))
  = [stream_data "0123456789"; stream_data "abcdefghij";
     stream_error
       (mkError "Error" "Stream exceeded specified max of 10 bytes.")] /\
  readFile Sample.bytes Sample.meter (mkHdfsFileSource Sample.hdfs) "/big"
           (Some (Num 10))
  = Rejected (text "File exceeds max size of 10B").
Proof.
  split; [reflexivity|].
  destruct (readFile_error_settles_once Sample.bytes Sample.meter
              (mkHdfsFileSource Sample.hdfs) "/big" (Num 10)
              ["0123456789"; "abcdefghij"]
              (mkError "Error" "Stream exceeded specified max of 10 bytes.")
              [] eq_refl)
    as (reason & Hcap & _ & Hrejected & _).
  rewrite Hrejected, (Hcap eq_refl). reflexivity.
Defined.

Lemma readFileLines_stops_at_maxLines_witness :
  readFileLines Sample.getErrorMessage Sample.EOL Sample.createInterface
                (mkHdfsFileSource Sample.hdfs) "/lines" (Num 2)
  = Fulfilled ("one" ++ Sample.EOL ++ "two").
Proof.
  assert (Hpositive : (1 <= 2)%Z) by lia.
  destruct (readFileLines_stops_at_maxLines Sample.getErrorMessage Sample.EOL
              Sample.createInterface (mkHdfsFileSource Sample.hdfs) "/lines" 2
              ["one"; "two"]
              [reader_line "three"; reader_line "four"; reader_line "five";
               reader_close]
              Hpositive eq_refl eq_refl)
    as (Hfulfilled & _).
  exact Hfulfilled.
Defined.

(** [readFileLines] with a limit of zero lines over a source of five lines:
    the promise is fulfilled with the first line, not with no line. *)
Lemma readFileLines_zero_limit_counterexample :
  readFileLines_reader Sample.createInterface (mkHdfsFileSource Sample.hdfs)
                       "/lines"
  = (map reader_line (firstn 0 ["one"; "two"; "three"; "four"; "five"])
     ++ map reader_line ["one"; "two"; "three"; "four"; "five"]
     ++ [reader_close])%list /\
  readFileLines Sample.getErrorMessage Sample.EOL Sample.createInterface
                (mkHdfsFileSource Sample.hdfs) "/lines" (Num 0)
  = Fulfilled "one" /\
  readFileLines Sample.getErrorMessage Sample.EOL Sample.createInterface
                (mkHdfsFileSource Sample.hdfs) "/lines" (Num 0)
  <> Fulfilled
       (Buffer_from
          (join Sample.EOL (firstn 0 ["one"; "two"; "three"; "four"; "five"]))).
Proof.
  split; [reflexivity|]. split; [reflexivity|].
  vm_compute. discriminate.
Qed.

Lemma writeFile_two_phase_witness :
  writeFile_stream "/" Sample.basename Sample.fs_createReadStream
                   (mkHdfsFileSource Sample.hdfs)
                   (File "/home/me/x.txt" false) "/ro"
  = [write_error (object Sample.denied); write_finish "/ro/x.txt"] /\
  writeFile "/" Sample.basename Sample.fs_createReadStream
            (mkHdfsFileSource Sample.hdfs) (File "/home/me/x.txt" false) "/ro"
  = Rejected (object Sample.denied) /\
  writeFile "/" Sample.basename Sample.fs_createReadStream
            (mkHdfsFileSource Sample.hdfs) (File "/home/me/x.txt" false) "/up"
  = Fulfilled "/up/x.txt".
Proof.
  destruct (writeFile_two_phase "/" Sample.basename Sample.fs_createReadStream
              (mkHdfsFileSource Sample.hdfs) (File "/home/me/x.txt" false)
              "/ro")
    as (_ & _ & Herror).
  destruct (writeFile_two_phase "/" Sample.basename Sample.fs_createReadStream
              (mkHdfsFileSource Sample.hdfs) (File "/home/me/x.txt" false)
              "/up")
    as (_ & Hfinish & _).
  split; [reflexivity|]. split.
  - apply (Herror (object Sample.denied) [write_finish "/ro/x.txt"] eq_refl).
  - apply (Hfinish "/up/x.txt" [] eq_refl).
Defined.

Lemma enumerateFiles_maps_listing_witness :
  enumerateFiles "/" (mkHdfsFileSource Sample.hdfs) "/p"
  = Fulfilled [File "/p/d" true; File "/p/f" false].
Proof.
  destruct (enumerateFiles_maps_listing "/" (mkHdfsFileSource Sample.hdfs) "/p"
              [ {| type := "DIRECTORY"; pathSuffix := "d" |};
                {| type := "FILE"; pathSuffix := "f" |} ] [] eq_refl)
    as (hdfsFiles & Hlisted & _).
  rewrite Hlisted. vm_compute in Hlisted. now injection Hlisted as <-.
Defined.

Lemma readFileLines_natural_close_witness :
  readFileLines Sample.getErrorMessage Sample.EOL Sample.createInterface
                (mkHdfsFileSource Sample.hdfs) "/line" (Num 5)
  = Fulfilled "only".
Proof.
  assert (Hfewer : (Z.of_nat (List.length ["only"]) < 5)%Z) by (cbn; lia).
  destruct (readFileLines_natural_close Sample.getErrorMessage Sample.EOL
              Sample.createInterface (mkHdfsFileSource Sample.hdfs) "/line" 5
              ["only"] [] Hfewer eq_refl)
    as (_ & _ & Hsingle).
  apply (Hsingle "only" eq_refl).
Defined.

Lemma client_error_shapes_witness :
  enumerateFiles "/" (mkHdfsFileSource Sample.hdfs) "/ro"
  = Rejected (text "Permission denied") /\
  mkdir "/" (mkHdfsFileSource Sample.hdfs) "new" "/ro"
  = Rejected (object Sample.denied) /\
  delete (mkHdfsFileSource Sample.hdfs) "/ro/f" None
  = Rejected (object Sample.denied).
Proof.
  destruct (client_error_shapes "/" (mkHdfsFileSource Sample.hdfs))
    as (Henumerate & Hmkdir & Hdelete & _).
  split; [|split].
  - apply (Henumerate "/ro" Sample.denied [] [] eq_refl).
  - apply (Hmkdir "new" "/ro" (object Sample.denied) [] eq_refl eq_refl).
  - apply (Hdelete "/ro/f" None (object Sample.denied) [] eq_refl eq_refl).
Defined.

Lemma exists_resolves_never_rejects_witness :
  exists_ (mkHdfsFileSource Sample.hdfs) "/p" = Fulfilled true /\
  exists_ (mkHdfsFileSource Sample.hdfs) "/q" = Fulfilled false.
Proof.
  split.
  - apply (proj1 (exists_resolves_never_rejects
                    (mkHdfsFileSource Sample.hdfs) "/p") true [] eq_refl).
  - apply (proj1 (exists_resolves_never_rejects
                    (mkHdfsFileSource Sample.hdfs) "/q") false [] eq_refl).
Defined.

Lemma joinHdfsPath_root_or_parent_witness :
  joinHdfsPath "/" "/" "a" = "/a" /\ joinHdfsPath "/" "/a" "b" = "/a/b".
Proof.
  destruct (joinHdfsPath_root_or_parent "/" "/" "a") as (Hroot & _).
  destruct (joinHdfsPath_root_or_parent "/" "/a" "b") as (_ & Hparent & _).
  split.
  - apply Hroot. reflexivity.
  - apply Hparent. discriminate.
Defined.

Lemma readFile_zero_limit_unbounded_witness :
  readFile Sample.bytes Sample.meter (mkHdfsFileSource Sample.hdfs) "/big"
           (Some (Num 0))
  = Fulfilled "0123456789abcdefghij" /\
  rf_promise (deliver (readFile_on Sample.bytes (Some (Num 0)))
                (Sample.meter (Num 0)
                   (Client.createReadStream Sample.hdfs "/big"))
                readFile_start)
  = Rejected (text "File exceeds max size of 0B").
Proof.
  split; [|reflexivity].
  apply (proj2 (proj2 (proj2
           (readFile_zero_limit_unbounded Sample.bytes Sample.meter
              (mkHdfsFileSource Sample.hdfs) "/big")))
           ["0123456789"; "abcdefghij"] [] eq_refl).
Defined.

(** ** The message relay *)

Lemma relay_deliver (messages : list value) (sent : list value) :
  deliver Relay.on_message messages sent
  = (sent ++ flat_map (fun msg => [msg; msg; msg; text "done"]) messages)%list.
Proof.
  revert sent. unfold deliver.
  induction messages as [|msg messages IH]; intros sent; cbn [fold_left].
  - cbn. now rewrite app_nil_r.
  - rewrite IH. unfold Relay.on_message. cbn [flat_map].
    now rewrite <- app_assoc.
Qed.

Lemma relay_answers (messages : list value) (i : nat) (msg : value) :
  nth_error messages i = Some msg ->
  let answers := flat_map (fun msg => [msg; msg; msg; text "done"]) messages in
  nth_error answers (4 * i) = Some msg /\
  nth_error answers (4 * i + 1) = Some msg /\
  nth_error answers (4 * i + 2) = Some msg /\
  nth_error answers (4 * i + 3) = Some (text "done").
Proof.
  revert i. induction messages as [|first messages IH]; intros i Hi.
  - destruct i; discriminate Hi.
  - destruct i as [|i].
    + injection Hi as ->. now repeat split.
    + cbn in Hi. specialize (IH i Hi). cbn zeta in *.
      replace (4 * S i)%nat with (S (S (S (S (4 * i))))) by lia.
      exact IH.
Qed.

(** The relay sends ['ready'] first and then, for each message in the order
    of arrival, the message three times and ['done']: four sends per
    message, so the i-th message is found again at the sends [4i+1], [4i+2]
    and [4i+3], followed by ['done'] at [4i+4]. *)
Theorem relay_answers_every_message (messages : list value) :
  List.length (Relay.sent messages) = (1 + 4 * List.length messages)%nat /\
  nth_error (Relay.sent messages) 0 = Some (text "ready") /\
  forall i msg,
    nth_error messages i = Some msg ->
    nth_error (Relay.sent messages) (4 * i + 1) = Some msg /\
    nth_error (Relay.sent messages) (4 * i + 2) = Some msg /\
    nth_error (Relay.sent messages) (4 * i + 3) = Some msg /\
    nth_error (Relay.sent messages) (4 * i + 4) = Some (text "done").
Proof.
  unfold Relay.sent, Relay.start. rewrite relay_deliver.
  cbn [app]. split; [|split; [reflexivity|]].
  - cbn [List.length]. f_equal.
    induction messages as [|msg messages IH]; cbn; [reflexivity|].
    rewrite IH. lia.
  - intros i msg Hi.
    destruct (relay_answers messages i msg Hi) as (H0 & H1 & H2 & H3).
    replace (4 * i + 1)%nat with (S (4 * i)) by lia.
    replace (4 * i + 2)%nat with (S (4 * i + 1)) by lia.
    replace (4 * i + 3)%nat with (S (4 * i + 2)) by lia.
    replace (4 * i + 4)%nat with (S (4 * i + 3)) by lia.
    now repeat split.
Qed.

(** ** The language bridge *)

(** [changeLanguage] passes on how the call of the main thread ends: it is
    pending or rejected exactly when that call is, with the same reason.
    When the call succeeds it is fulfilled with the document stored for the
    uri, and with [undefined] when none is stored - an unknown uri is not an
    error. *)
Theorem changeLanguage_outcomes {Uri TextDocument : Type}
    (this : ExtHost.ExtHostLanguages Uri TextDocument) (uri : Uri)
    (languageId : string) :
  let call :=
    ExtHost.proxy_changeLanguage (ExtHost._proxy this) uri languageId in
  (ExtHost.changeLanguage this uri languageId = Pending <-> call = Pending) /\
  (forall e, ExtHost.changeLanguage this uri languageId = Rejected e <->
             call = Rejected e) /\
  (forall doc,
      ExtHost.changeLanguage this uri languageId = Fulfilled (Some doc) <->
      call = Fulfilled tt /\
      exists data, ExtHost._documents this uri = Some data /\
                   ExtHost.document data = doc) /\
  (ExtHost.changeLanguage this uri languageId = Fulfilled None <->
   call = Fulfilled tt /\ ExtHost._documents this uri = None).
Proof.
  cbn zeta. unfold ExtHost.changeLanguage, ExtHost.then_.
  destruct (ExtHost.proxy_changeLanguage (ExtHost._proxy this) uri languageId)
    as [|[]|reason];
    destruct (ExtHost._documents this uri) as [data|];
    (split; [|split; [|split]]); intros; split; intros H;
    try discriminate H; try exact H; try reflexivity;
    try (destruct H as (H & _); discriminate H);
    try (destruct H as (_ & H); discriminate H);
    try (destruct H as (_ & data' & H & _); discriminate H);
    try (now split); try (injection H as <-; reflexivity).
  - injection H as <-. split; [reflexivity|]. now exists data.
  - destruct H as (_ & data' & H & <-). now injection H as <-.
Qed.

(** ** Further runs on the scripted collaborators *)

Lemma joinHdfsPath_child_determined_witness :
  joinHdfsPath "/" "/p" "d" = joinHdfsPath "/" "/p" "d" /\
  joinHdfsPath "/" "/p" "d" <> EmptyString.
Proof.
  destruct (joinHdfsPath_child_determined "/" "/p" "d" "d")
    as (Hnonempty & _ & Hsame).
  split; [|exact Hnonempty].
  now destruct (Hsame eq_refl).
Defined.

Lemma createFile_in_createDirectory_witness :
  path (createFile "/" (createDirectory "/" (File "/" true) "d") "f")
  = "/d/f" /\
  path (createFile "/" (createDirectory "/" (File "/p" true) "d") "f")
  = "/p/d/f".
Proof.
  assert (Hname : "d" <> EmptyString) by discriminate.
  split.
  - apply (proj1 (createFile_in_createDirectory "/" (File "/" true) "d" "f"
                    eq_refl Hname)).
  - apply (proj1 (createFile_in_createDirectory "/" (File "/p" true) "d" "f"
                    eq_refl Hname)).
Defined.

Lemma enumerateFiles_distinct_paths_witness :
  exists hdfsFiles,
    enumerateFiles "/" (mkHdfsFileSource Sample.hdfs) "/p"
    = Fulfilled hdfsFiles /\
    NoDup (map path hdfsFiles).
Proof.
  apply (enumerateFiles_distinct_paths "/" (mkHdfsFileSource Sample.hdfs) "/p"
           [ {| type := "DIRECTORY"; pathSuffix := "d" |};
             {| type := "FILE"; pathSuffix := "f" |} ] [] eq_refl).
  repeat constructor; cbn; intuition discriminate.
Defined.

Lemma removePortFromHost_first_delimiter_witness :
  exists normalized,
    removePortFromHost Sample.parseInt Sample.options = Some normalized /\
    host normalized = Some "node".
Proof.
  destruct (removePortFromHost_first_delimiter Sample.parseInt Sample.options
              "node:8020,50070" eq_refl)
    as (normalized & kept & cut & R & Hk & _).
  exists normalized. split; [exact R|].
  vm_compute in R. now injection R as <-.
Defined.

Lemma removePortFromHost_idempotent_witness :
  removePortFromHost Sample.parseInt
    (set_port (Num 8020) (set_host "node" Sample.options))
  = Some (set_port (Num 8020) (set_host "node" Sample.options)).
Proof.
  apply (removePortFromHost_idempotent Sample.parseInt Sample.options).
  reflexivity.
Defined.

Lemma removePortFromHost_port_precedence_witness :
  (exists normalized,
      removePortFromHost Sample.parseInt Sample.options = Some normalized /\
      host normalized = Some "node" /\
      port normalized = Some (Sample.parseInt "8020")) /\
  (exists normalized,
      removePortFromHost Sample.parseInt
        (set_host "node,8020:50070" Sample.options) = Some normalized /\
      host normalized = Some "node" /\
      port normalized = Some (Sample.parseInt "8020:50070")).
Proof.
  split.
  - apply (proj1 (removePortFromHost_port_precedence Sample.parseInt
                    Sample.options "node" "8020" "50070" eq_refl eq_refl));
      reflexivity.
  - apply (proj2 (removePortFromHost_port_precedence Sample.parseInt
                    (set_host "node,8020:50070" Sample.options)
                    "node" "8020" "8020:50070" eq_refl eq_refl)).
    reflexivity.
Defined.

Lemma createHdfsFileSource_needs_options_witness :
  exists options' requestParams',
    createClientArguments "/" Sample.parseInt Scenario.hostless
    = Some (options', requestParams') /\
    host options' = None /\ port options' = Some (Num 50070).
Proof.
  destruct (proj2 (createHdfsFileSource_needs_options "/" Sample.parseInt
                     Sample.webhdfs_createClient) Scenario.hostless)
    as (options' & requestParams' & Hargs & _ & Hkept & _).
  exists options', requestParams'. split; [exact Hargs|].
  apply (Hkept eq_refl).
Defined.

Lemma createClientArguments_agent_witness :
  exists options' requestParams',
    createClientArguments "/" Sample.parseInt Scenario.secured
    = Some (options', requestParams') /\
    agent requestParams'
    = Some {| agent_host := Some "gateway"; agent_port := Some (Num 8443);
              agent_path := "/"; rejectUnauthorized := false |} /\
    requestParams options' = Some requestParams'.
Proof.
  eexists _, _. split; [reflexivity|].
  destruct (createClientArguments_agent "/" Sample.parseInt Scenario.secured
              _ _ eq_refl)
    as (Hagent & _).
  destruct (Hagent _ _ eq_refl eq_refl) as (Ha & _ & _ & Hp).
  split; [exact Ha | exact Hp].
Defined.

Lemma mkdir_delete_succeed_witness :
  mkdir "/" (mkHdfsFileSource Scenario.flaky) "new" "/p" = Fulfilled tt /\
  delete (mkHdfsFileSource Scenario.flaky) "/p/f" None = Fulfilled tt.
Proof.
  destruct (mkdir_delete_succeed "/" (mkHdfsFileSource Scenario.flaky))
    as (Hmkdir & Hdelete).
  split.
  - apply (Hmkdir "new" "/p" null [object Sample.denied] eq_refl eq_refl).
  - apply (Hdelete "/p/f" None (text EmptyString) [] eq_refl eq_refl).
Defined.

Lemma readFile_resolves_in_order_witness :
  readFile Sample.bytes Sample.meter (mkHdfsFileSource Sample.hdfs) "/big"
           None
  = Fulfilled "0123456789abcdefghij" /\
  readFile Sample.bytes Sample.meter (mkHdfsFileSource Sample.hdfs) "/big"
           (Some (Num 1024))
  = Fulfilled "0123456789abcdefghij".
Proof.
  split.
  - apply (readFile_resolves_in_order Sample.bytes Sample.meter
             (mkHdfsFileSource Sample.hdfs) "/big" None
             ["0123456789"; "abcdefghij"] [] eq_refl).
  - apply (readFile_resolves_in_order Sample.bytes Sample.meter
             (mkHdfsFileSource Sample.hdfs) "/big" (Some (Num 1024))
             ["0123456789"; "abcdefghij"] [] eq_refl).
Defined.

Lemma readFile_pending_iff_only_data_witness :
  readFile Sample.bytes Sample.meter (mkHdfsFileSource Scenario.flaky)
           "/stalled" None = Pending /\
  forallb is_data
    (readFile_stream Sample.meter (mkHdfsFileSource Sample.hdfs) "/big" None)
  = false.
Proof.
  split.
  - apply (proj2 (readFile_pending_iff_only_data Sample.bytes Sample.meter
                    (mkHdfsFileSource Scenario.flaky) "/stalled" None)).
    reflexivity.
  - destruct (forallb is_data
                (readFile_stream Sample.meter (mkHdfsFileSource Sample.hdfs)
                                 "/big" None)) eqn:Hall; [|reflexivity].
    apply (proj2 (readFile_pending_iff_only_data Sample.bytes Sample.meter
                    (mkHdfsFileSource Sample.hdfs) "/big" None)) in Hall.
    discriminate Hall.
Defined.

Lemma readFileLines_error_rejects_witness :
  readFileLines Sample.getErrorMessage Sample.EOL Sample.createInterface
                (mkHdfsFileSource Scenario.flaky) "/f" (Num 5)
  = Rejected (text "Permission denied").
Proof.
  assert (Hfewer : (Z.of_nat (List.length ["one"; "two"]) < 5)%Z)
    by (cbn; lia).
  apply (readFileLines_error_rejects Sample.getErrorMessage Sample.EOL
           Sample.createInterface (mkHdfsFileSource Scenario.flaky) "/f" 5
           ["one"; "two"] Sample.denied [reader_close] Hfewer eq_refl).
Defined.

Lemma readFileLines_at_most_maxLines_witness :
  exists first rest,
    lines_of (readFileLines_reader Sample.createInterface
                (mkHdfsFileSource Sample.hdfs) "/lines")
    = (first ++ rest)%list /\
    (Z.of_nat (List.length first) <= 2)%Z.
Proof.
  destruct (readFileLines_at_most_maxLines Sample.getErrorMessage Sample.EOL
              Sample.createInterface (mkHdfsFileSource Sample.hdfs) "/lines"
              2 ("one" ++ Sample.EOL ++ "two") eq_refl)
    as (first & rest & Hsplit & _ & Hbound).
  exists first, rest. split; [exact Hsplit | exact Hbound].
Defined.

Lemma readFileLines_NaN_reads_all_witness :
  readFileLines Sample.getErrorMessage Sample.EOL Sample.createInterface
                (mkHdfsFileSource Sample.hdfs) "/lines" NaN
  = Fulfilled ("one" ++ Sample.EOL ++ "two" ++ Sample.EOL ++ "three"
               ++ Sample.EOL ++ "four" ++ Sample.EOL ++ "five").
Proof.
  apply (proj1 (readFileLines_NaN_reads_all Sample.getErrorMessage Sample.EOL
                  Sample.createInterface (mkHdfsFileSource Sample.hdfs)
                  "/lines" ["one"; "two"; "three"; "four"; "five"] []
                  eq_refl)).
Defined.

Lemma relay_answers_every_message_witness :
  nth_error (Relay.sent [text "a"; numeric (Num 7)]) 5 = Some (numeric (Num 7))
  /\ nth_error (Relay.sent [text "a"; numeric (Num 7)]) 8
     = Some (text "done").
Proof.
  destruct (relay_answers_every_message [text "a"; numeric (Num 7)])
    as (_ & _ & Hanswers).
  destruct (Hanswers 1%nat (numeric (Num 7)) eq_refl) as (H1 & _ & _ & H4).
  split; [exact H1 | exact H4].
Defined.

Lemma changeLanguage_outcomes_witness :
  ExtHost.changeLanguage Scenario.bridge "file:///query" "sql"
  = Fulfilled (Some "query") /\
  ExtHost.changeLanguage Scenario.bridge "file:///other" "sql"
  = Fulfilled None /\
  ExtHost.changeLanguage Scenario.bridge "file:///query" "klingon"
  = Rejected (text "Unknown language id").
Proof.
  split; [|split].
  - apply (proj1 (proj2 (proj2
             (changeLanguage_outcomes Scenario.bridge "file:///query" "sql")))
             "query").
    split; [reflexivity|]. now eexists.
  - apply (proj2 (proj2 (proj2
             (changeLanguage_outcomes Scenario.bridge "file:///other"
                                      "sql")))).
    now split.
  - apply (proj1 (proj2
             (changeLanguage_outcomes Scenario.bridge "file:///query"
                                      "klingon"))).
    reflexivity.
Defined.

Lemma readFile_limit_loses_client_error_witness :
  Client.createReadStream Sample.hdfs "/missing"
  = [stream_error Sample.denied] /\
  readFile Sample.bytes Sample.meter (mkHdfsFileSource Sample.hdfs)
           "/missing" (Some (Num 10))
  = Pending /\
  readFile Sample.bytes Sample.meter (mkHdfsFileSource Sample.hdfs)
           "/missing" None
  = Rejected (text "Error: Permission denied").
Proof.
  split; [reflexivity|].
  apply (readFile_limit_loses_client_error Sample.bytes Sample.meter
           (mkHdfsFileSource Sample.hdfs) "/missing" (Num 10)
           (Sample.metered 10 0) [] Sample.denied
           eq_refl (fun source => eq_refl) eq_refl eq_refl eq_refl).
Defined.
